(** * xarray-dataclasses: creators, coordinate assembly and shorthand constructors

    A shallow embedding of [xarray_dataclasses/core.py],
    [xarray_dataclasses/dataarray.py] and [xarray_dataclasses/util.py].
    Python dictionaries keep their insertion order and are association
    lists here; exceptions are values of [exn]; the [DataArray] object that
    [to_dataarray] builds and [set_coord] mutates lives in a store and is
    handled through its location.  What the code calls in numpy, xarray,
    [dataclasses] and [importlib] is modelled as far as the code depends on
    it: how [np.full] fills an array, what the coordinate table of xarray
    refuses, which fields [dataclass] makes and refuses, and what a lazy
    loader does to a module. *)

From stdpp Require Import base list strings.

Set Default Proof Using "Type".
Set Warnings "-clear-no-such-hyp".

(** ** Exceptions and fallible results *)

(** The exception classes the code and the libraries under it raise.
    [ConfigurationError] and [ShapeError] are the two names the specification
    gives to the failures of the parser module; [core.py] itself signals its
    set-up failures with [ValueError].  [MissingDimensionsError] is the class
    xarray derives from [ValueError] for a variable that is named after one
    of its axes and has not exactly one axis. *)
Inductive exn : Type :=
  | ValueError (msg : string)
  | KeyError (key : string)
  | TypeError (msg : string)
  | AttributeError (attr : string)
  | IndexError (msg : string)
  | SystemError (msg : string)
  | ConfigurationError (msg : string)
  | ShapeError (msg : string)
  | MissingDimensionsError (msg : string).

Inductive result (A : Type) : Type :=
  | OK (a : A)
  | Err (e : exn).
Arguments OK {A} a.
Arguments Err {A} e.

#[export] Instance result_ret : MRet result := λ A a, OK a.
#[export] Instance result_bind : MBind result := λ A B f r,
  match r with
  | OK a => f a
  | Err e => Err e
  end.
#[export] Instance result_fmap : FMap result := λ A B f r,
  match r with
  | OK a => OK (f a)
  | Err e => Err e
  end.

Definition is_OK {A} (r : result A) : Prop := ∃ a, r = OK a.

(** [[f x for x in xs]] where [f] may raise. *)
Fixpoint comprehension {A B} (f : A → result B) (xs : list A) : result (list B) :=
  match xs with
  | [] => OK []
  | x :: xs' => y ← f x; ys ← comprehension f xs'; OK (y :: ys)
  end.

(** [for x in xs: body(x)] in a monad. *)
Fixpoint for_ {M : Type → Type} `{!MRet M, !MBind M} {A}
    (xs : list A) (body : A → M unit) : M unit :=
  match xs with
  | [] => mret ()
  | x :: xs' => body x ≫= λ _, for_ xs' body
  end.

(** ** Python dictionaries *)

Module Dict.
(** A dictionary is the list of its items, in insertion order. *)
Abbreviation t V := (list (string * V)).

Section dict.
Context {V : Type}.
Implicit Types d : t V.

Definition keys (d : t V) : list string := d.*1.

Definition contains (k : string) (d : t V) : bool := bool_decide (k ∈ keys d).

Fixpoint get (k : string) (d : t V) : option V :=
  match d with
  | [] => None
  | (k', v) :: d' => if decide (k' = k) then Some v else get k d'
  end.

(** [d[k]] *)
Definition getitem (k : string) (d : t V) : result V :=
  match get k d with
  | Some v => OK v
  | None => Err (KeyError k)
  end.

(** [d[k] = v]: a key already present keeps its place. *)
Fixpoint setitem (k : string) (v : V) (d : t V) : t V :=
  match d with
  | [] => [(k, v)]
  | (k', v') :: d' =>
      if decide (k' = k) then (k, v) :: d' else (k', v') :: setitem k v d'
  end.

(** [d.pop(k)] for a key that is present; a dictionary has a key once. *)
Definition pop (k : string) (d : t V) : t V := filter (λ kv, kv.1 ≠ k) d.

(** [{**d1, **d2}] *)
Definition merge (d1 d2 : t V) : t V :=
  foldl (λ acc kv, setitem kv.1 kv.2 acc) d1 d2.

(** The entries whose key is one of [ks]. *)
Definition restrict (ks : list string) (d : t V) : t V :=
  filter (λ kv, kv.1 ∈ ks) d.
End dict.
End Dict.

Abbreviation dict V := (Dict.t V).

(** ** The array backend *)

(** numpy is not part of the repository.  Its scalars, its element types and
    the cast between them stay abstract; [zero] and [one] are what [np.zeros]
    and [np.ones] fill with.  [refuses_empty_truth] says whether numpy
    refuses to give the truth value of an array without elements, as its
    newer versions do; the older ones answer [False] with a warning. *)
Class Backend : Type := {
  scalar : Type;
  Dtype : Type;
  Dtype_eq_dec :: EqDecision Dtype;
  astype : Dtype → scalar → scalar;
  zero : scalar;
  one : scalar;
  refuses_empty_truth : bool
}.

Section numpy.
Context `{Backend}.

(** An array: its shape and its elements in row-major order. *)
Record ndarray : Type := { shape : list nat; flat : list scalar }.

(** A Python value as the array functions see it: a scalar or an array. *)
Inductive value : Type :=
  | Scalar (x : scalar)
  | Array (a : ndarray).

(** Number of elements of an array of the given shape. *)
Definition size (shp : list nat) : nat := foldr Nat.mul 1 shp.

(** All indices of an array of the given shape, in row-major order. *)
Fixpoint indices (shp : list nat) : list (list nat) :=
  match shp with
  | [] => [[]]
  | n :: shp' => i ← seq 0 n; (λ idx, i :: idx) <$> indices shp'
  end.

(** Offset of an index in the row-major buffer. *)
Definition ravel (shp idx : list nat) : nat :=
  foldl (λ off ni, off * ni.1 + ni.2) 0 (zip shp idx).

(** When numpy copies an array into one with fewer axes, it first takes
    leading axes of extent 1 off the source, as long as the source has more
    axes than the target: a source of shape [(1, 2)] fills a target of
    shape [(2,)]. *)
Fixpoint strip_leading_ones (ndim : nat) (src : list nat) : list nat :=
  match src with
  | n :: src' =>
      if decide (ndim < length src ∧ n = 1) then strip_leading_ones ndim src'
      else src
  | [] => []
  end.

(** numpy's rule for filling a target from a source: after the leading
    unit axes are taken off, the source has no more axes than the target,
    the shapes are aligned at their last axis, and each source extent is 1
    or the target extent. *)
Definition broadcastable (src tgt : list nat) : bool :=
  let src := strip_leading_ones (length tgt) src in
  bool_decide (length src ≤ length tgt) &&
  forallb (λ st, bool_decide (st.1 = 1 ∨ st.1 = st.2))
          (zip src (drop (length tgt - length src) tgt)).

(** The source index read for a target index, in the source without its
    leading unit axes: leading target axes are dropped and an axis of
    extent 1 is read at 0. *)
Definition source_index (src idx : list nat) : list nat :=
  let src := strip_leading_ones (length idx) src in
  zip_with (λ n i, if decide (n = 1) then 0 else i)
           src (drop (length idx - length src) idx).

(** [np.copyto(dst, a)] for a new array [dst] of shape [tgt]: what [dst]
    holds afterwards.  The elements are in row-major order, so the buffer
    of the source is the same with and without its leading unit axes. *)
Definition np_copyto (a : ndarray) (tgt : list nat) : result ndarray :=
  if broadcastable (shape a) tgt then
    OK {| shape := tgt;
          flat := (λ idx, default zero
                     (flat a !! ravel (strip_leading_ones (length tgt) (shape a))
                                      (source_index (shape a) idx)))
                  <$> indices tgt |}
  else Err (ValueError "could not broadcast input array").

(** The cast to a declared dtype; no cast when none is declared. *)
Definition cast (dt : option Dtype) (x : scalar) : scalar :=
  match dt with
  | Some t => astype t x
  | None => x
  end.

(** [np.asarray]: a scalar is an array of shape [()]. *)
Definition np_asarray (v : value) : ndarray :=
  match v with
  | Scalar x => {| shape := []; flat := [x] |}
  | Array a => a
  end.

(** [np.full(shape, fill_value)]: a new array of the given shape into which
    [fill_value] is copied. *)
Definition np_full (shp : list nat) (fill_value : value) : result ndarray :=
  np_copyto (np_asarray fill_value) shp.

Definition np_zeros (shp : list nat) : ndarray :=
  {| shape := shp; flat := replicate (size shp) zero |}.

Definition np_ones (shp : list nat) : ndarray :=
  {| shape := shp; flat := replicate (size shp) one |}.

(** ** Labelled arrays *)

(** A named-axes array as it sits in a coordinate table. *)
Record XVariable : Type := {
  v_dims : list string;
  v_dtype : option Dtype;
  v_data : ndarray
}.

(** [xr.DataArray]: the data with its axis names and declared element type,
    and the coordinate table. *)
Record DataArray : Type := {
  dims : list string;
  dtype : option Dtype;
  data : ndarray;
  coords : dict XVariable
}.

(** [dataarray.sizes]: axis name to extent. *)
Definition sizes (da : DataArray) : dict nat := zip (dims da) (shape (data da)).

Definition as_variable (ds : list string) (da : DataArray) : XVariable :=
  {| v_dims := ds; v_dtype := dtype da; v_data := data da |}.

(** *** The coordinate table

    xarray is not part of the repository either.  The assignment
    [dataarray.coords[name] = dims, data] makes a variable of the pair,
    enters it in a copy of the table, checks that table together with the
    array, and only then gives it to the array. *)

(** The variable made of the pair under its name: it has one axis name per
    axis of its data, and a variable named after one of its axes has that
    axis only. *)
Definition variable_of (name : string) (item : list string * DataArray)
  : result XVariable :=
  if decide (length item.1 ≠ length (shape (data item.2))) then
    Err (ValueError
           "dimensions must have the same length as the number of data dimensions")
  else if decide (name ∈ item.1 ∧ length item.1 ≠ 1) then
    Err (MissingDimensionsError
           "more than 1-dimension and the same name as one of its dimensions")
  else OK (as_variable item.1 item.2).

(** The axes of a variable with their extents. *)
Definition axes_of (var : XVariable) : list (string * nat) :=
  zip (v_dims var) (shape (v_data var)).

(** The loop of xarray's [calculate_dimensions] over the axes of the
    variables: no axis has the name of a variable without axes, and an axis
    has one extent. *)
Fixpoint calculate_dimensions_from (scalar_vars : list string)
    (axes : list (string * nat)) (dims : dict nat) : result (dict nat) :=
  match axes with
  | [] => OK dims
  | (dim, size) :: axes' =>
      if decide (dim ∈ scalar_vars) then
        Err (ValueError "dimension already exists as a scalar variable")
      else
        match Dict.get dim dims with
        | None =>
            calculate_dimensions_from scalar_vars axes'
              (Dict.setitem dim size dims)
        | Some n =>
            if decide (n = size) then
              calculate_dimensions_from scalar_vars axes' dims
            else Err (ValueError "conflicting sizes for dimension")
        end
  end.

(** The variables are given with their keys; the array itself is among
    them under a key that is not a name. *)
Definition calculate_dimensions (variables : list (option string * XVariable))
  : result (dict nat) :=
  let scalar_vars :=
    omap (λ kv, if decide (v_dims kv.2 = []) then kv.1 else None) variables in
  calculate_dimensions_from scalar_vars (variables ≫= λ kv, axes_of kv.2) [].

(** The check of a new table against the array, and the array with that
    table: the table may not bring an axis the array does not have. *)
Definition update_coords (da : DataArray) (coords : dict XVariable)
  : result DataArray :=
  let coords_plus_data :=
    ((λ kv, (Some kv.1, kv.2)) <$> coords) ++
    [(None, as_variable (dims da) da)] in
  dims' ← calculate_dimensions coords_plus_data;
  if decide (Forall (λ dim, dim ∈ dims da) (Dict.keys dims')) then
    OK {| dims := dims da; dtype := dtype da; data := data da;
          coords := coords |}
  else
    Err (ValueError "cannot add coordinates with new dimensions to a DataArray").

(** The array after [coords[name] = dims, data], or what the assignment
    raises. *)
Definition coords_update (da : DataArray) (name : string)
    (item : list string * DataArray) : result DataArray :=
  var ← variable_of name item;
  update_coords da (Dict.setitem name var (coords da)).

(** Modelled from the spec: the typed array class [DataArray[dims, dtype]]
    of the typing module, which is not among the sources.  Calling it
    "wraps the raw result into a shape/dtype-tagged array of dims/dtype":
    the elements are cast when a dtype is declared, the axes are named by
    [dims] (one name per axis), and the coordinate table starts empty. *)
Definition TypedArray (ds : list string) (dt : option Dtype) (raw : value)
  : result DataArray :=
  let a := np_asarray raw in
  if decide (length ds = length (shape a)) then
    OK {| dims := ds;
          dtype := dt;
          data := match dt with
                  | Some t => {| shape := shape a; flat := astype t <$> flat a |}
                  | None => a
                  end;
          coords := [] |}
  else Err (ValueError "different number of dimensions on data and dims").
End numpy.

(** ** Objects and references

    [to_dataarray] hands the array it builds to [set_coord], which updates
    it in place: these arrays are objects of a store, named by location.
    An object that is never updated after its construction is a value. *)

Abbreviation loc := nat (only parsing).
Abbreviation store := (list DataArray).

Section store.
Context `{Backend}.

(** Computations that read and write the store and may raise. *)
Definition M (A : Type) : Type := store → result A * store.

#[export] Instance M_ret : MRet M := λ A a s, (OK a, s).
#[export] Instance M_bind : MBind M := λ A B f m s,
  match m s with
  | (OK a, s') => f a s'
  | (Err e, s') => (Err e, s')
  end.

Definition lift {A} (r : result A) : M A := λ s, (r, s).

(** A newly constructed object gets a location of its own. *)
Definition new_object (da : DataArray) : M loc :=
  λ s, (OK (length s), s ++ [da]).

Definition load (l : loc) : M DataArray := λ s,
  match s !! l with
  | Some da => (OK da, s)
  | None => (Err (SystemError "dangling reference"), s)
  end.

(** [dataarray.sizes[dim]] *)
Definition sizes_getitem (dataarray : loc) (dim : string) : M nat :=
  da ← load dataarray; lift (Dict.getitem dim (sizes da)).

(** The array with one more entry in its coordinate table. *)
Definition with_coord (da : DataArray) (name : string)
    (item : list string * DataArray) : DataArray :=
  {| dims := dims da; dtype := dtype da; data := data da;
     coords := Dict.setitem name (as_variable item.1 item.2) (coords da) |}.

(** [dataarray.coords[name] = dims, typed]: the array is entered in the
    coordinate table of the object at [dataarray] under the given axes,
    unless xarray refuses the entry; the object is then as it was. *)
Definition coords_setitem (dataarray : loc) (name : string)
    (item : list string * DataArray) : M unit := λ s,
  match s !! dataarray with
  | Some da =>
      match coords_update da name item with
      | OK da' => (OK (), <[dataarray := da']> s)
      | Err e => (Err e, s)
      end
  | None => (Err (SystemError "dangling reference"), s)
  end.

(** [[f x for x in xs]] where [f] reads the store. *)
Fixpoint comprehensionM {A B} (f : A → M B) (xs : list A) : M (list B) :=
  match xs with
  | [] => mret []
  | x :: xs' => y ← f x; ys ← comprehensionM f xs'; mret (y :: ys)
  end.
End store.

(** ** core.py *)

Section core.
Context `{Backend}.

(** What a type hint evaluates to: the typed array class
    [DataArray[dims, dtype]], another class, or an object that is not a
    class: [ClassVar[...]] and [InitVar[...]], the two hints [dataclass]
    treats apart, or another object of the typing module such as [Any]. *)
Inductive Annotation : Type :=
  | TDataArray (ds : list string) (dt : option Dtype)
  | TClass (qualname : string)
  | THint (repr : string)
  | TClassVar
  | TInitVar.

#[export] Instance Annotation_eq_dec : EqDecision Annotation.
Proof. solve_decision. Defined.

(** [isinstance(t, type)] *)
Definition isinstance_type (t : Annotation) : bool :=
  match t with
  | TDataArray _ _ | TClass _ => true
  | THint _ | TClassVar | TInitVar => false
  end.

(** [issubclass(t, DataArray)] for a class [t]. *)
Definition issubclass_DataArray (t : Annotation) : bool :=
  match t with
  | TDataArray _ _ => true
  | _ => false
  end.

(** [t.dims] *)
Definition type_dims (t : Annotation) : result (list string) :=
  match t with
  | TDataArray ds _ => OK ds
  | _ => Err (AttributeError "dims")
  end.

(** [t(data)] *)
Definition type_call (t : Annotation) (raw : value) : result DataArray :=
  match t with
  | TDataArray ds dt => TypedArray ds dt raw
  | _ => Err (TypeError "object is not callable")
  end.

(** [inspect.Parameter] *)
Inductive Kind : Type :=
  | POSITIONAL_ONLY
  | POSITIONAL_OR_KEYWORD
  | VAR_POSITIONAL
  | KEYWORD_ONLY
  | VAR_KEYWORD.

#[export] Instance Kind_eq_dec : EqDecision Kind.
Proof. solve_decision. Defined.

(** [Parameter.empty] is a class of its own; a parameter without a hint
    has it as annotation.  A parameter without default has [None]. *)
Definition empty : Annotation := TClass "inspect._empty".

Record Param : Type := {
  par_name : string;
  par_annotation : Annotation;
  par_kind : Kind;
  par_default : option value
}.

(** A callable: what [inspect.signature] reports of it and what a call
    with positional and keyword arguments returns or raises. *)
Record Callable (R : Type) : Type := {
  parameters : list Param;
  return_annotation : Annotation;
  call : list value → dict value → R
}.
Arguments parameters {R} _.
Arguments return_annotation {R} _.
Arguments call {R} _ _ _.

(** [DataArrayCreator]: a call constructs a new array object. *)
Definition DataArrayCreator : Type := Callable (M loc).

(** [key in sig.parameters] *)
Definition in_parameters (key : string) (sig : list Param) : bool :=
  bool_decide (key ∈ par_name <$> sig).

(** Modelled from the spec: [copy_wraps] of the utils module, which is not
    among the sources.  The function it decorates "exposes the same
    default values and parameter names as base_callable": the signature
    reported for the wrapper is the one of the wrapped callable. *)
Definition copy_wraps {R R'} (wrapped : Callable R)
    (f : list value → dict value → R') : Callable R' :=
  {| parameters := parameters wrapped;
     return_annotation := return_annotation wrapped;
     call := f |}.

(** [f.__annotations__["return"] = t] *)
Definition set_return_annotation {R} (f : Callable R)
    (t : Annotation) : Callable R :=
  {| parameters := parameters f; return_annotation := t; call := call f |}.

(** The three checks [get_creator] makes on a parameter. *)
Definition check_parameter (par : Param) : result unit :=
  if decide (par_annotation par = empty) then
    Err (ValueError "Type hint must be specified for all args.")
  else if decide (par_kind par = VAR_POSITIONAL) then
    Err (ValueError "Variadic positional args cannot be used.")
  else if decide (par_kind par = VAR_KEYWORD) then
    Err (ValueError "Variadic keyword args cannot be used.")
  else OK ().

(** A parameter without type hint, or one that collects the unbounded
    positional or keyword arguments. *)
Definition rejected (par : Param) : Prop :=
  par_annotation par = empty ∨
  par_kind par = VAR_POSITIONAL ∨ par_kind par = VAR_KEYWORD.

(** The loop of [wrapper] over [tuple(kwargs.keys())]. *)
Definition drop_unknown (sig : list Param) (kwargs : dict value)
  : dict value :=
  foldl (λ kwargs key,
           if negb (in_parameters key sig) then Dict.pop key kwargs
           else kwargs)
        kwargs (Dict.keys kwargs).

Definition get_creator (creator : Callable (result value))
    (dims : list string) (dtype : option Dtype) : result DataArrayCreator :=
  let sig := parameters creator in
  let TypedArray := TDataArray dims dtype in
  for_ sig check_parameter;;
  let wrapper := copy_wraps creator (λ args kwargs,
    let kwargs := drop_unknown sig kwargs in
    da ← lift (raw ← call creator args kwargs; type_call TypedArray raw);
    new_object da) in
  OK (set_return_annotation wrapper TypedArray).

(** A class before [dataclass] has processed it: [__annotations__] and the
    attributes of the class body. *)
Record PyClass : Type := {
  cls_annotations : dict Annotation;
  cls_dict : dict value
}.

Definition update_annotations {R} (cls : PyClass) (based_on : Callable R)
  : PyClass :=
  let '(leading_annotations, trailing_annotations) :=
    foldl (λ '(leading, trailing) par,
             if decide (par_kind par = KEYWORD_ONLY) then
               (leading, Dict.setitem (par_name par) (par_annotation par) trailing)
             else
               (Dict.setitem (par_name par) (par_annotation par) leading, trailing))
          ([], []) (parameters based_on) in
  {| cls_annotations :=
       Dict.merge (Dict.merge leading_annotations (cls_annotations cls))
                  trailing_annotations;
     cls_dict := cls_dict cls |}.

(** [setattr(cls, name, value)] *)
Definition setattr (cls : PyClass) (name : string) (v : value) : PyClass :=
  {| cls_annotations := cls_annotations cls;
     cls_dict := Dict.setitem name v (cls_dict cls) |}.

(** [not par.default == par.empty].  A parameter without default has
    [empty] as its default, and a number is not [empty].  An array is
    compared with [empty] element by element, and numpy refuses to give the
    truth value of the outcome when it has more than one element. *)
Definition has_default (par : Param) : result bool :=
  match par_default par with
  | None => OK false
  | Some (Scalar _) => OK true
  | Some (Array a) =>
      match size (shape a) with
      | 0 =>
          if refuses_empty_truth then
            Err (ValueError "The truth value of an empty array is ambiguous.")
          else OK true
      | 1 => OK true
      | _ =>
          Err (ValueError
                 "The truth value of an array with more than one element is ambiguous. Use a.any() or a.all()")
      end
  end.

(** The loop of [update_defaults] from the given parameter on. *)
Fixpoint update_defaults_from (cls : PyClass) (pars : list Param)
  : result PyClass :=
  match pars with
  | [] => OK cls
  | par :: pars' =>
      given ← has_default par;
      match given, par_default par with
      | true, Some d => update_defaults_from (setattr cls (par_name par) d) pars'
      | _, _ => update_defaults_from cls pars'
      end
  end.

Definition update_defaults {R} (cls : PyClass) (based_on : Callable R)
  : result PyClass :=
  update_defaults_from cls (parameters based_on).

(** [dataclasses.Field] *)
Record Field : Type := {
  f_name : string;
  f_type : Annotation;
  f_default : option value
}.

(** What [dataclass] makes of an annotation: a field of the instances, or
    one of the two pseudo-fields, a class variable or a parameter of
    [__init__] only. *)
Inductive FieldType : Type :=
  | FIELD
  | FIELD_CLASSVAR
  | FIELD_INITVAR.

#[export] Instance FieldType_eq_dec : EqDecision FieldType.
Proof. solve_decision. Defined.

Definition field_type (t : Annotation) : FieldType :=
  match t with
  | TClassVar => FIELD_CLASSVAR
  | TInitVar => FIELD_INITVAR
  | _ => FIELD
  end.

(** A DataArray class: [__dataclass_fields__], pseudo-fields included, in
    declaration order, and [__dataarray_creator__]. *)
Record DataArrayClass : Type := {
  dataclass_fields : list Field;
  dataarray_creator : DataArrayCreator
}.

(** [dataclasses.fields]: the fields without the pseudo-fields. *)
Definition fields (cls : DataArrayClass) : list Field :=
  filter (λ f, field_type (f_type f) = FIELD) (dataclass_fields cls).

(** The field [dataclass] makes of an annotation: a class attribute of the
    same name is its default.  A field of the instances may not have a
    default of an unhashable class, which the class of arrays is (the rule
    of Python 3.11; older versions refuse lists, dictionaries and sets
    only). *)
Definition get_field (cls : PyClass) (name : string) (t : Annotation)
  : result Field :=
  match field_type t, Dict.get name (cls_dict cls) with
  | FIELD, Some (Array _) =>
      Err (ValueError
             ("mutable default <class 'numpy.ndarray'> for field " +:+ name +:+
              " is not allowed: use default_factory"))
  | _, default => OK {| f_name := name; f_type := t; f_default := default |}
  end.

(** The parameters of the generated [__init__] are the fields and the
    [InitVar] pseudo-fields: among them [dataclass] refuses one without
    default after one with a default. *)
Fixpoint check_field_order (seen_default : bool) (fs : list Field)
  : result unit :=
  match fs with
  | [] => OK ()
  | f :: fs' =>
      if decide (field_type (f_type f) = FIELD_CLASSVAR) then
        check_field_order seen_default fs'
      else
        match f_default f with
        | Some _ => check_field_order true fs'
        | None =>
            if seen_default then
              Err (TypeError ("non-default argument '" +:+ f_name f +:+
                              "' follows default argument"))
            else check_field_order false fs'
        end
  end.

(** [dataclass(cls)]: one field or pseudo-field per annotation, in the
    order of [__annotations__]. *)
Definition dataclass (cls : PyClass) (creator : DataArrayCreator)
  : result DataArrayClass :=
  fs ← comprehension (λ na, get_field cls na.1 na.2) (cls_annotations cls);
  check_field_order false fs;;
  OK {| dataclass_fields := fs; dataarray_creator := creator |}.

(** The decorator [dataarrayclass(dims, dtype, creator)] applied to [cls]. *)
Definition dataarrayclass (dims : list string) (dtype : option Dtype)
    (creator : Callable (result value)) (cls : PyClass)
  : result DataArrayClass :=
  dataarray_creator ← get_creator creator dims dtype;
  let cls := update_annotations cls dataarray_creator in
  cls ← update_defaults cls dataarray_creator;
  dataclass cls dataarray_creator.

(** An instance: its class and the values of its attributes. *)
Record Instance : Type := {
  inst_class : DataArrayClass;
  inst_dict : dict value
}.

Definition getattr (inst : Instance) (name : string) : result value :=
  match Dict.get name (inst_dict inst) with
  | Some v => OK v
  | None => Err (AttributeError name)
  end.

(** [dataclasses.asdict]: the fields in order, each with a copy of its
    value. *)
Definition asdict (inst : Instance) : result (dict value) :=
  comprehension (λ f, v ← getattr inst (f_name f); OK (f_name f, v))
                (fields (inst_class inst)).

Definition set_coord (dataarray : loc) (field : Field) (v : value) : M unit :=
  dims ← lift (type_dims (f_type field));
  shape ← comprehensionM (λ dim, sizes_getitem dataarray dim) dims;
  typed ← lift (full ← np_full shape v; type_call (f_type field) (Array full));
  coords_setitem dataarray (f_name field) (dims, typed).

Definition to_dataarray (inst : Instance) : M loc :=
  kwargs ← lift (asdict inst);
  dataarray ← call (dataarray_creator (inst_class inst)) [] kwargs;
  for_ (dataclass_fields (inst_class inst)) (λ field,
    if negb (isinstance_type (f_type field)) then mret ()
    else if negb (issubclass_DataArray (f_type field)) then mret ()
    else
      v ← lift (getattr inst (f_name field));
      set_coord dataarray field v);;
  mret dataarray.

(** *** The same computations on the object itself

    What [set_coord] and the loop of [to_dataarray] do to the one object
    they work on, as functions of that object. *)

(** The fields [to_dataarray] turns into coordinates. *)
Definition coordinate_field (field : Field) : bool :=
  isinstance_type (f_type field) && issubclass_DataArray (f_type field).

(** The entry [set_coord] makes for a field. *)
Definition coord_of (da : DataArray) (field : Field) (v : value)
  : result (list string * DataArray) :=
  dims ← type_dims (f_type field);
  shape ← comprehension (λ dim, Dict.getitem dim (sizes da)) dims;
  typed ← (full ← np_full shape v; type_call (f_type field) (Array full));
  OK (dims, typed).

Fixpoint attach_coords (inst : Instance) (fields : list Field)
    (da : DataArray) : result unit * DataArray :=
  match fields with
  | [] => (OK (), da)
  | field :: fields' =>
      if negb (isinstance_type (f_type field)) then
        attach_coords inst fields' da
      else if negb (issubclass_DataArray (f_type field)) then
        attach_coords inst fields' da
      else
        match getattr inst (f_name field) with
        | Err e => (Err e, da)
        | OK v =>
            match coord_of da field v with
            | Err e => (Err e, da)
            | OK item =>
                match coords_update da (f_name field) item with
                | Err e => (Err e, da)
                | OK da' => attach_coords inst fields' da'
                end
            end
        end
  end.

(** What [set_coord] makes of the object it works on. *)
Definition set_coord_on (da : DataArray) (field : Field) (v : value)
  : result DataArray :=
  item ← coord_of da field v;
  coords_update da (f_name field) item.

(** The dims a coordinate field declares. *)
Definition field_dims (field : Field) : list string :=
  match f_type field with
  | TDataArray ds _ => ds
  | _ => []
  end.

(** The dtype a coordinate field declares. *)
Definition field_dtype (field : Field) : option Dtype :=
  match f_type field with
  | TDataArray _ dt => dt
  | _ => None
  end.

(** A declared dimension that is not an axis of the array. *)
Definition unknown_dim (da : DataArray) (field : Field) : Prop :=
  ∃ dim, dim ∈ field_dims field ∧ dim ∉ dims da.

(** The extents of the axes a coordinate field names. *)
Definition target_shape (da : DataArray) (field : Field) : list nat :=
  (λ dim, default 0 (Dict.get dim (sizes da))) <$> field_dims field.

(** An array value whose shape is not the target shape. *)
Definition shape_mismatch (da : DataArray) (field : Field) (v : value) : Prop :=
  ∃ a, v = Array a ∧ shape a ≠ target_shape da field.

(** A value that numpy cannot broadcast to the target shape. *)
Definition cannot_broadcast (da : DataArray) (field : Field) (v : value)
  : Prop :=
  broadcastable (shape (np_asarray v)) (target_shape da field) = false.

(** A field that xarray does not take as a coordinate of the array: it is
    named after one of its dims and has not exactly that one, or it has no
    dims and is named after an axis of the array. *)
Definition refused_name (da : DataArray) (field : Field) : Prop :=
  (f_name field ∈ field_dims field ∧ length (field_dims field) ≠ 1) ∨
  (field_dims field = [] ∧ f_name field ∈ dims da).

(** A coordinate field that [set_coord] cannot attach: one of its dims is
    unknown to the array, its value cannot be broadcast, or xarray refuses
    its name. *)
Definition cannot_attach (inst : Instance) (da : DataArray) (field : Field)
  : Prop :=
  coordinate_field field ∧
  (unknown_dim da field ∨
   (∃ v, getattr inst (f_name field) = OK v ∧ cannot_broadcast da field v) ∨
   refused_name da field).

(** The exception [set_coord] raises for a coordinate field it cannot
    attach: [KeyError] for an unknown dim; else [ValueError] for a value
    that cannot be broadcast; else the refusal of xarray,
    [MissingDimensionsError] for a field named after one of several dims
    and [ValueError] for a field without dims named after an axis. *)
Definition raised_for (inst : Instance) (da : DataArray) (field : Field)
    (e : exn) : Prop :=
  (unknown_dim da field →
     ∃ key, e = KeyError key ∧ key ∈ field_dims field ∧ key ∉ dims da) ∧
  (¬ unknown_dim da field →
     (∃ v, getattr inst (f_name field) = OK v ∧ cannot_broadcast da field v) →
     ∃ msg, e = ValueError msg) ∧
  (¬ unknown_dim da field →
     ¬ (∃ v, getattr inst (f_name field) = OK v ∧ cannot_broadcast da field v) →
     (f_name field ∈ field_dims field ∧ length (field_dims field) ≠ 1 →
        ∃ msg, e = MissingDimensionsError msg) ∧
     (¬ (f_name field ∈ field_dims field ∧ length (field_dims field) ≠ 1) →
        ∃ msg, e = ValueError msg)).

(** The array a creator made by [get_creator] constructs for an instance. *)
Definition created (creator : Callable (result value)) (ds : list string)
    (dt : option Dtype) (inst : Instance) : result DataArray :=
  kwargs ← asdict inst;
  raw ← call creator []
           (Dict.restrict (par_name <$> parameters creator) kwargs);
  TypedArray ds dt raw.
End core.

Arguments parameters {_ R} _.
Arguments return_annotation {_ R} _.
Arguments call {_ R} _ _ _.

(** ** The objects of dataarray.py *)

Section objects.
Context `{Backend}.

(** A factory is [xr.DataArray] or a subclass of it; the object it makes
    holds the array it is given and belongs to that class. *)
Inductive Factory : Type :=
  | xr_DataArray
  | Subclass (qualname : string).

Record AssembledArray : Type := {
  built_by : Factory;
  array : DataArray
}.

(** A dataclass of [dataarray.py]: its fields in declaration order, the
    dims and dtype fixed for its data, and the class attribute
    [__dataarray_factory__] where the class has one. *)
Record DataClass : Type := {
  dc_fields : list Field;
  dc_dims : list string;
  dc_dtype : option Dtype;
  dc_factory : option Factory
}.

Record DataObject : Type := {
  obj_class : DataClass;
  obj_dict : dict value
}.

(** What [parse] returns: the fields by role, and the values of the
    instance when an instance was parsed. *)
Record DataModel : Type := {
  m_data : list Field;
  m_coord : list Field;
  m_attr : list Field;
  m_class : DataClass;
  m_values : dict value
}.

End objects.

(** ** The parser module, from the specification *)

Module Parser.
Section parser.
Context `{Backend}.

(** A field "whose declared_type is Coordinate". *)
Definition is_coordinate (f : Field) : Prop :=
  issubclass_DataArray (f_type f) = true.

#[export] Instance is_coordinate_dec f : Decision (is_coordinate f).
Proof. unfold is_coordinate. apply _. Defined.

(** Modelled from the spec: [classify], the partition of the declared
    fields that the parser module (not among the sources) computes.  "The
    first field is treated as the candidate primary unless annotated as a
    Coordinate, in which case classification fails with a
    ConfigurationError"; "coordinates is every remaining descriptor whose
    type tag is Coordinate; passthrough is every remaining descriptor that
    is neither primary nor coordinate", both in declaration order. *)
Definition classify (fields : list Field)
  : result (Field * list Field * list Field) :=
  match fields with
  | [] => Err (ConfigurationError "no primary data field could be determined")
  | first :: rest =>
      if decide (is_coordinate first) then
        Err (ConfigurationError "no primary data field could be determined")
      else
        OK (first, filter is_coordinate rest,
            filter (λ f, ¬ is_coordinate f) rest)
  end.

(** Modelled from the spec: [parse] of the parser module, applied to a
    class or to an instance; it classifies the fields and, for an
    instance, keeps the current field values. *)
Definition parse (x : DataClass + DataObject) : result DataModel :=
  let cls := match x with inl cls => cls | inr inst => obj_class inst end in
  '(primary, coordinates, passthrough) ← classify (dc_fields cls);
  OK {| m_data := [primary];
        m_coord := coordinates;
        m_attr := passthrough;
        m_class := cls;
        m_values := match x with inl _ => [] | inr inst => obj_dict inst end |}.

(** Modelled from the spec: one coordinate attachment of [assemble].
    "Look up, from the primary array's realized axis-size table, the sizes
    of exactly the axes named in that coordinate's dims; broadcast the
    coordinate's raw value to that shape (a scalar value is
    broadcast/filled uniformly across the full shape; an array value must
    already match or fails with ShapeError); attach the resulting array to
    the output under the coordinate's axis-name tuple and the field's name
    as key." *)
Definition attach (coordinate_values : dict value) (da : DataArray)
    (entry : string * list string) : result DataArray :=
  let '(name, cdims) := entry in
  target ← comprehension
              (λ dim, match Dict.get dim (sizes da) with
                      | Some n => OK n
                      | None => Err (ShapeError dim)
                      end) cdims;
  raw ← Dict.getitem name coordinate_values;
  a ← match raw with
      | Scalar x => OK {| shape := target; flat := replicate (size target) x |}
      | Array a =>
          if decide (shape a = target) then OK a else Err (ShapeError name)
      end;
  OK {| dims := dims da; dtype := dtype da; data := data da;
        coords := Dict.setitem name
                    {| v_dims := cdims; v_dtype := None; v_data := a |}
                    (coords da) |}.

(** Modelled from the spec: [assemble].  "Start from the primary array
    (already correctly shaped/typed - construction happened in Creator)":
    the primary value is what a Creator makes of it, the typed array of
    [dims] and [dtype], "whose axis order equals dims, whose element type
    equals the declared dtype (cast on construction)"; a value with another
    number of axes than [dims] names is no such array.  Then the
    coordinates are attached "in declaration order"; the result is "the
    primary array augmented with all coordinate attachments". *)
Definition assemble (primary_value : value) (coordinate_values : dict value)
    (dims : list string) (dtype : option Dtype)
    (coordinate_dims : dict (list string)) : result DataArray :=
  foldl (λ r entry, da ← r; attach coordinate_values da entry)
        (TypedArray dims dtype primary_value)
        coordinate_dims.

(** Modelled from the spec: the method [to_dataarray] of a parsed model,
    which is [assemble] on the values of the instance, the result being
    made by the given factory. *)
Definition to_dataarray (model : DataModel)
    (dataarray_factory : Factory) : result AssembledArray :=
  match m_data model with
  | [] => Err (IndexError "list index out of range")
  | primary :: _ =>
      primary_value ← Dict.getitem (f_name primary) (m_values model);
      coordinate_dims ← comprehension
          (λ f, ds ← type_dims (f_type f); OK (f_name f, ds)) (m_coord model);
      da ← assemble primary_value (m_values model)
               (dc_dims (m_class model)) (dc_dtype (m_class model))
               coordinate_dims;
      OK {| built_by := dataarray_factory; array := da |}
  end.
End parser.
End Parser.

(** ** dataarray.py *)

Section dataarray.
Context `{Backend}.

(** The parser module is imported, not defined, by [dataarray.py]. *)
Variable parse : DataClass + DataObject → result DataModel.
Variable to_dataarray : DataModel → Factory → result AssembledArray.

(** [Shape = Union[Sequence[int], int]] *)
Inductive Shape : Type :=
  | ShapeInt (n : nat)
  | ShapeSeq (ns : list nat).

(** numpy reads an integer shape [n] as [(n,)]. *)
Definition as_shape (shape : Shape) : list nat :=
  match shape with
  | ShapeInt n => [n]
  | ShapeSeq ns => ns
  end.

(** [inst.__dataarray_factory__] *)
Definition getattr_dataarray_factory (inst : DataObject) : result Factory :=
  match dc_factory (obj_class inst) with
  | Some f => OK f
  | None => Err (AttributeError "__dataarray_factory__")
  end.

Definition asdataarray (inst : DataObject) (dataarray_factory : Factory)
  : result AssembledArray :=
  dataarray_factory ←
    match getattr_dataarray_factory inst with
    | OK f => OK f
    | Err (AttributeError _) => OK dataarray_factory
    | Err e => Err e
    end;
  model ← parse (inr inst);
  to_dataarray model dataarray_factory.

(** [xs[0]] *)
Definition getitem0 {A} (xs : list A) : result A :=
  match xs with
  | x :: _ => OK x
  | [] => Err (IndexError "list index out of range")
  end.

(** The keyword arguments of a call with two unpacked mappings: a key given
    twice is refused. *)
Definition keywords (d1 d2 : dict value) : result (dict value) :=
  match find (λ k, Dict.contains k d1) (Dict.keys d2) with
  | Some k => Err (TypeError ("got multiple values for keyword argument " +:+ k))
  | None => OK (d1 ++ d2)
  end.

(** The [__init__] that [dataclass] generates, called with keyword
    arguments only.  Its parameters are the fields and the [InitVar]
    pseudo-fields: every keyword names one of them, and one that is not
    given takes its default.  The instance keeps the values of the fields. *)
Definition init (cls : DataClass) (kwargs : dict value) : result DataObject :=
  let params :=
    filter (λ f, field_type (f_type f) ≠ FIELD_CLASSVAR) (dc_fields cls) in
  match find (λ k, negb (bool_decide (k ∈ f_name <$> params)))
             (Dict.keys kwargs) with
  | Some k => Err (TypeError ("got an unexpected keyword argument " +:+ k))
  | None =>
      values ← comprehension
        (λ f, match Dict.get (f_name f) kwargs, f_default f with
              | Some v, _ => OK (f, v)
              | None, Some d => OK (f, d)
              | None, None =>
                  Err (TypeError ("missing required argument " +:+ f_name f))
              end) params;
      OK {| obj_class := cls;
            obj_dict := (λ fv, (f_name fv.1, fv.2)) <$>
                        filter (λ fv, field_type (f_type fv.1) = FIELD) values |}
  end.

(** [parse(cls).data[0].name], the first line of each shorthand method. *)
Definition data_name (cls : DataClass) : result string :=
  model ← parse (inl cls);
  first ← getitem0 (m_data model);
  OK (f_name first).

(** The argument [order] only chooses the memory layout of the new array
    and is left out.  [empty] differs from the three methods below by its
    call of [np.empty], which leaves the contents of the array open. *)
Definition zeros (cls : DataClass) (shape : Shape) (kwargs : dict value)
  : result AssembledArray :=
  name ← data_name cls;
  let data := np_zeros (as_shape shape) in
  inst ← (kw ← keywords [(name, Array data)] kwargs; init cls kw);
  asdataarray inst xr_DataArray.

Definition ones (cls : DataClass) (shape : Shape) (kwargs : dict value)
  : result AssembledArray :=
  name ← data_name cls;
  let data := np_ones (as_shape shape) in
  inst ← (kw ← keywords [(name, Array data)] kwargs; init cls kw);
  asdataarray inst xr_DataArray.

Definition full (cls : DataClass) (shape : Shape) (fill_value : value)
    (kwargs : dict value) : result AssembledArray :=
  name ← data_name cls;
  data ← np_full (as_shape shape) fill_value;
  inst ← (kw ← keywords [(name, Array data)] kwargs; init cls kw);
  asdataarray inst xr_DataArray.
End dataarray.

(** ** util.py *)

Section util.
(** A loader as a finder proposes it, which may or may not define
    [exec_module], or [importlib.util.LazyLoader] around a loader. *)
Inductive Loader : Type :=
  | FoundLoader (origin : string) (defines_exec_module : bool)
  | LazyLoader (loader : Loader).

(** A module spec; a finder may leave the loader out. *)
Record ModuleSpec : Type := {
  spec_name : string;
  spec_loader : option Loader
}.

(** A module object: its [__spec__] when it has one, whether it waits for
    its first attribute access to run its code, and whether that code has
    been run. *)
Record PyModule : Type := {
  mod_spec : option ModuleSpec;
  mod_lazy : bool;
  mod_executed : bool
}.

(** What [lazy_import] returns or raises: the [ImportError] is the one it
    raises itself, [Raised] is what comes out of a call it makes. *)
Inductive import_result : Type :=
  | Imported (module : PyModule)
  | ImportError (module_name : string)
  | Raised (e : exn).

(** The import system is not part of the repository.
    [importlib.util.find_spec] asks the finders, and for a dotted name
    imports the parent package first: it reads and changes [sys.modules],
    answers with a spec or with [None], or raises.  [create_module] is the
    method of the found loader that [module_from_spec] calls: it hands out
    a module object of its own, or [None] for the default one, or raises,
    and may import on its way. *)
Variable find_spec :
  string → dict PyModule → result (option ModuleSpec) * dict PyModule.
Variable create_module :
  Loader → ModuleSpec → dict PyModule →
  result (option PyModule) * dict PyModule.

(** [hasattr(loader, "exec_module")] *)
Definition has_exec_module (loader : option Loader) : bool :=
  match loader with
  | Some (FoundLoader _ defines_exec_module) => defines_exec_module
  | Some (LazyLoader _) => true
  | None => false
  end.

(** [importlib.util.LazyLoader(loader)] refuses a loader that does not
    define [exec_module]. *)
Definition lazy_loader (loader : option Loader) : result Loader :=
  match loader with
  | Some loader =>
      if has_exec_module (Some loader) then OK loader
      else Err (TypeError "loader must define exec_module()")
  | None => Err (TypeError "loader must define exec_module()")
  end.

(** [importlib.util.module_from_spec(spec)], where the loader of [spec] is
    the lazy loader around [loader], whose [create_module] is the one of
    [loader].  The module is the one the loader hands out, or a new one;
    it gets the spec unless it has one already. *)
Definition module_from_spec (loader : Loader) (spec : ModuleSpec)
    (sys_modules : dict PyModule) : result PyModule * dict PyModule :=
  match create_module loader spec sys_modules with
  | (OK (Some module), sys_modules) =>
      (OK {| mod_spec := match mod_spec module with
                         | Some own => Some own
                         | None => Some spec
                         end;
             mod_lazy := mod_lazy module;
             mod_executed := mod_executed module |}, sys_modules)
  | (OK None, sys_modules) =>
      (OK {| mod_spec := Some spec; mod_lazy := false; mod_executed := false |},
       sys_modules)
  | (Err e, sys_modules) => (Err e, sys_modules)
  end.

(** [LazyLoader(loader).exec_module(module)]: [loader] is put back on the
    spec of the module, and the module is made one that runs its code at
    the first attribute access; nothing is run now. *)
Definition exec_module (loader : Loader) (module : PyModule) : PyModule :=
  {| mod_spec := (λ spec, {| spec_name := spec_name spec;
                             spec_loader := Some loader |}) <$> mod_spec module;
     mod_lazy := true;
     mod_executed := mod_executed module |}.

(** [lazy_import(module_name)] on [sys.modules].  The module object that
    [exec_module] works on is the one entered in [sys.modules]. *)
Definition lazy_import (module_name : string) (sys_modules : dict PyModule)
  : import_result * dict PyModule :=
  match Dict.getitem module_name sys_modules with
  | OK ret => (Imported ret, sys_modules)
  | Err (KeyError _) =>
      match find_spec module_name sys_modules with
      | (Err e, sys_modules) => (Raised e, sys_modules)
      | (OK None, sys_modules) => (ImportError module_name, sys_modules)
      | (OK (Some spec), sys_modules) =>
          match lazy_loader (spec_loader spec) with
          | Err e => (Raised e, sys_modules)
          | OK loader =>
              let spec := {| spec_name := spec_name spec;
                             spec_loader := Some (LazyLoader loader) |} in
              match module_from_spec loader spec sys_modules with
              | (Err e, sys_modules) => (Raised e, sys_modules)
              | (OK module, sys_modules) =>
                  let sys_modules :=
                    Dict.setitem module_name module sys_modules in
                  let module := exec_module loader module in
                  (Imported module, Dict.setitem module_name module sys_modules)
              end
          end
      end
  | Err e => (Raised e, sys_modules)
  end.
End util.

(** ** Words for the statements about the coordinate table *)

Section table_words.
Context `{Backend}.

(** The names of the variables without axes, and the axes of all
    variables of a table. *)
Definition scalar_names (coords : dict XVariable) : list string :=
  (filter (λ kv, v_dims kv.2 = []) coords).*1.

Definition table_axes (coords : dict XVariable) : list (string * nat) :=
  coords ≫= λ kv, axes_of kv.2.

(** No axis is listed with two extents. *)
Definition consistent (axes : list (string * nat)) : Prop :=
  ∀ dim n m, (dim, n) ∈ axes → (dim, m) ∈ axes → n = m.

(** An array as xarray keeps it: one axis name per axis of the data, and a
    coordinate table that passes the check of [update_coords]. *)
Definition well_formed (da : DataArray) : Prop :=
  length (dims da) = length (shape (data da)) ∧
  is_OK (update_coords da (coords da)).
End table_words.

(** ** Words for the statements about the decorator *)

Section decorator_words.
Context `{Backend}.

(** The annotation a parameter brings to the class. *)
Definition annotation_item (par : Param) : string * Annotation :=
  (par_name par, par_annotation par).

(** The annotations of the parameters that are keyword-only, and of the
    others, in the order of the signature. *)
Definition keyword_only_items (sig : list Param) : dict Annotation :=
  annotation_item <$> filter (λ par, par_kind par = KEYWORD_ONLY) sig.

Definition positional_items (sig : list Param) : dict Annotation :=
  annotation_item <$> filter (λ par, par_kind par ≠ KEYWORD_ONLY) sig.

(** The class with the defaults of the parameters as attributes. *)
Definition with_defaults (cls : PyClass) (sig : list Param) : PyClass :=
  foldl (λ cls par,
           match par_default par with
           | Some d => setattr cls (par_name par) d
           | None => cls
           end)
        cls sig.

(** A default that is an array with more than one element. *)
Definition ambiguous_default (par : Param) : Prop :=
  ∃ a, par_default par = Some (Array a) ∧ 1 < size (shape a).

(** A default that is a number, or an array with one element. *)
Definition plain_default (par : Param) : Prop :=
  ∀ a, par_default par = Some (Array a) → size (shape a) = 1.

(** The field [dataclass] makes of an annotation of the class. *)
Definition field_of (cls : PyClass) (na : string * Annotation) : Field :=
  {| f_name := na.1; f_type := na.2;
     f_default := Dict.get na.1 (cls_dict cls) |}.
End decorator_words.

(** * Sample classes *)

Module Examples.
(** A backend with integer scalars and two element types. *)
Inductive np_dtype : Type := uint8 | bool_.

#[export] Instance np_dtype_eq_dec : EqDecision np_dtype.
Proof. solve_decision. Defined.

Definition Zbackend : Backend := {|
  scalar := Z;
  Dtype := np_dtype;
  astype := λ t x,
    match t with
    | uint8 => (x `mod` 256)%Z
    | bool_ => if decide (x = 0%Z) then 0%Z else 1%Z
    end;
  zero := 0%Z;
  one := 1%Z;
  refuses_empty_truth := true
|}.
#[local] Existing Instance Zbackend.

Definition data_param : Param :=
  {| par_name := "data"; par_annotation := THint "Any";
     par_kind := POSITIONAL_OR_KEYWORD; par_default := None |}.

Definition fill_param : Param :=
  {| par_name := "fill"; par_annotation := TClass "int";
     par_kind := KEYWORD_ONLY; par_default := Some (Scalar 0%Z) |}.

(** [def new(data: Any, *, fill: int = 0)], which returns [data]. *)
Definition new : Callable (result value) := {|
  parameters := [data_param; fill_param];
  return_annotation := THint "Any";
  call := λ args kwargs,
    match args, Dict.get "data" kwargs with
    | [], Some v => OK v
    | [v], None => OK v
    | _, _ => Err (TypeError "new() takes exactly one data argument")
    end
|}.

(** [def loose(data, *args: int)] *)
Definition loose : Callable (result value) := {|
  parameters :=
    [ {| par_name := "data"; par_annotation := empty;
         par_kind := POSITIONAL_OR_KEYWORD; par_default := None |};
      {| par_name := "args"; par_annotation := TClass "int";
         par_kind := VAR_POSITIONAL; par_default := None |} ];
  return_annotation := empty;
  call := λ args kwargs, Err (TypeError "not called")
|}.

Definition c1_field : Field :=
  {| f_name := "c1"; f_type := TDataArray ["x"] None; f_default := None |}.

(** The class body [c1: DataArray[("x",), None]]. *)
Definition image_body : PyClass := {|
  cls_annotations := [("c1", TDataArray ["x"] None)];
  cls_dict := []
|}.

(** [@dataarrayclass(("x", "y"), None, new) class Image: ...] *)
Definition Image : DataArrayClass :=
  match dataarrayclass ["x"; "y"] None new image_body with
  | OK cls => cls
  | Err _ => {| dataclass_fields := [];
                dataarray_creator :=
                  copy_wraps new (λ _ _, lift (Err (TypeError "no class"))) |}
  end.

Definition two_by_three : ndarray :=
  {| shape := [2; 3]; flat := [1; 2; 3; 4; 5; 6]%Z |}.

Definition one_entry : ndarray := {| shape := [1]; flat := [7%Z] |}.

Definition three_entries : ndarray :=
  {| shape := [3]; flat := [1; 2; 3]%Z |}.

(** Scenario A: [Image(data, c1=5)]. *)
Definition scenario_A : Instance := {|
  inst_class := Image;
  inst_dict := [("data", Array two_by_three); ("c1", Scalar 5%Z);
                ("fill", Scalar 0%Z)]
|}.

(** [Image(data, c1=np.array([7]))]: the coordinate has shape [(1,)]
    where the axis [x] has extent 2. *)
Definition one_for_two : Instance := {|
  inst_class := Image;
  inst_dict := [("data", Array two_by_three);
                ("c1", Array one_entry);
                ("fill", Scalar 0%Z)]
|}.

(** Scenario D: [Image(data, c1=np.array([1, 2, 3]))]. *)
Definition scenario_D : Instance := {|
  inst_class := Image;
  inst_dict := [("data", Array two_by_three);
                ("c1", Array three_entries);
                ("fill", Scalar 0%Z)]
|}.

(** A dataclass of [dataarray.py] with a data field and a plain field,
    converted by a subclass of [xr.DataArray]. *)
Definition Custom : DataClass := {|
  dc_fields :=
    [ {| f_name := "data"; f_type := THint "Data[tuple[X, Y], Any]";
         f_default := None |};
      {| f_name := "units"; f_type := TClass "int";
         f_default := Some (Scalar 1%Z) |} ];
  dc_dims := ["x"; "y"];
  dc_dtype := None;
  dc_factory := Some (Subclass "CustomArray")
|}.

Definition custom : DataObject := {|
  obj_class := Custom;
  obj_dict := [("data", Array two_by_three); ("units", Scalar 1%Z)]
|}.

(** The keyword arguments [to_dataarray] passes for [scenario_A]. *)
Definition image_kwargs : dict value :=
  [("data", Array two_by_three); ("c1", Scalar 5%Z); ("fill", Scalar 0%Z)].

(** What [to_dataarray] makes of [scenario_A]. *)
Definition c1_of_A : XVariable :=
  {| v_dims := ["x"]; v_dtype := None;
     v_data := {| shape := [2]; flat := [5; 5]%Z |} |}.

Definition assembled_A : DataArray :=
  {| dims := ["x"; "y"]; dtype := None; data := two_by_three;
     coords := [("c1", c1_of_A)] |}.

(** What [to_dataarray] makes of [one_for_two]. *)
Definition assembled_one_for_two : DataArray :=
  {| dims := ["x"; "y"]; dtype := None; data := two_by_three;
     coords := [("c1", {| v_dims := ["x"]; v_dtype := None;
                          v_data := {| shape := [2]; flat := [7; 7]%Z |} |})] |}.

(** What [Custom.full((2, 3), 5)] returns. *)
Definition full_of_fives : AssembledArray :=
  {| built_by := Subclass "CustomArray";
     array := {| dims := ["x"; "y"]; dtype := None;
                 data := {| shape := [2; 3]; flat := [5; 5; 5; 5; 5; 5]%Z |};
                 coords := [] |} |}.

(** A dataclass of [dataarray.py] whose data are bytes. *)
Definition Pixels : DataClass := {|
  dc_fields :=
    [ {| f_name := "data"; f_type := THint "Data[X, uint8]";
         f_default := None |} ];
  dc_dims := ["x"];
  dc_dtype := Some uint8;
  dc_factory := None
|}.

(** What [Pixels.full(2, 300)] returns. *)
Definition full_of_pixels : AssembledArray :=
  {| built_by := xr_DataArray;
     array := {| dims := ["x"]; dtype := Some uint8;
                 data := {| shape := [2]; flat := [44; 44]%Z |};
                 coords := [] |} |}.

Definition zero_of_fill : value := Scalar 0%Z.

(** The array the creator of [Image] makes of [two_by_three]. *)
Definition image_array : DataArray :=
  {| dims := ["x"; "y"]; dtype := None; data := two_by_three; coords := [] |}.

(** A field that is a coordinate, and one that is not. *)
Definition coordinate_x : Field :=
  {| f_name := "x"; f_type := TDataArray ["x"] None; f_default := None |}.
Definition plain_data : Field :=
  {| f_name := "data"; f_type := THint "Any"; f_default := None |}.
End Examples.

(** * More sample classes *)

Module MoreExamples.
Import Examples.
#[local] Existing Instance Zbackend.

Definition untyped_data : Param :=
  {| par_name := "data"; par_annotation := empty;
     par_kind := POSITIONAL_OR_KEYWORD; par_default := None |}.

Definition star_args : Param :=
  {| par_name := "args"; par_annotation := TClass "int";
     par_kind := VAR_POSITIONAL; par_default := None |}.



(** [def shifted(data: Any, offset: Any = np.array([8, 9]))] *)
Definition offset_param : Param :=
  {| par_name := "offset"; par_annotation := THint "Any";
     par_kind := POSITIONAL_OR_KEYWORD;
     par_default := Some (Array {| shape := [2]; flat := [8; 9]%Z |}) |}.

Definition shifted : Callable (result value) := {|
  parameters := [data_param; offset_param];
  return_annotation := THint "Any";
  call := λ args kwargs,
    match Dict.get "data" kwargs with
    | Some v => OK v
    | None => Err (TypeError "shifted() needs data")
    end
|}.

(** A class body that annotates [data] and [fill] itself. *)
Definition retyped_body : PyClass := {|
  cls_annotations :=
    [("x", TClass "float"); ("data", TClass "ndarray"); ("fill", TClass "float")];
  cls_dict := [("fill", Scalar 9%Z); ("x", Scalar 3%Z)]
|}.

(** A class with the creator of [Image] and the field [c1] only, and an
    instance of it. *)
Definition Bare : DataArrayClass :=
  {| dataclass_fields := [c1_field];
     dataarray_creator := dataarray_creator Image |}.

Definition bare : Instance :=
  {| inst_class := Bare; inst_dict := [("c1", Scalar 5%Z)] |}.

(** A coordinate field without dims. *)
Definition c0_field : Field :=
  {| f_name := "c0"; f_type := TDataArray [] (Some bool_); f_default := None |}.

Definition two_entries : ndarray := {| shape := [2]; flat := [8; 9]%Z |}.

Definition eight_nine : list scalar := [8; 9]%Z.

(** Two coordinate fields with the name of the axis [x]: one without dims,
    one on both axes. *)
Definition x_without_dims : Field :=
  {| f_name := "x"; f_type := TDataArray [] None; f_default := None |}.

Definition x_on_both_axes : Field :=
  {| f_name := "x"; f_type := TDataArray ["x"; "y"] None; f_default := None |}.

(** [np.array([[8, 9]])], of shape [(1, 2)]. *)
Definition one_by_two : ndarray := {| shape := [1; 2]; flat := eight_nine |}.

Definition zero_value : value := Scalar 0%Z.
Definition five_value : value := Scalar 5%Z.
Definition five : scalar := 5%Z.

(** A parser that finds no data field. *)
Definition empty_model : DataModel :=
  {| m_data := []; m_coord := []; m_attr := []; m_class := Custom;
     m_values := [] |}.

Definition no_data_parse (x : DataClass + DataObject) : result DataModel :=
  OK empty_model.

Definition data_twice : dict value := [("data", Scalar 1%Z)].

(** A finder that knows the module [numpy] only and imports nothing, and
    a loader that leaves the making of the module object to Python. *)
Definition numpy_loader : Loader := FoundLoader "numpy/__init__.py" true.

Definition numpy_spec : ModuleSpec :=
  {| spec_name := "numpy"; spec_loader := Some numpy_loader |}.

Definition finder (module_name : string) (sys_modules : dict PyModule)
  : result (option ModuleSpec) * dict PyModule :=
  (OK (if decide (module_name = "numpy") then Some numpy_spec else None),
   sys_modules).

Definition default_module (loader : Loader) (spec : ModuleSpec)
    (sys_modules : dict PyModule) : result (option PyModule) * dict PyModule :=
  (OK None, sys_modules).

Definition lazy_numpy : PyModule :=
  {| mod_spec := Some numpy_spec; mod_lazy := true; mod_executed := false |}.
End MoreExamples.

(** * Properties *)

(** ** Dictionaries *)

Lemma filter_ext_elem {A} (P Q : A → Prop)
    `{!∀ x, Decision (P x), !∀ x, Decision (Q x)} (l : list A) :
  (∀ x, x ∈ l → P x ↔ Q x) → filter P l = filter Q l.
Proof.
  induction l as [|x l IH]; intros Hl; [done|].
  rewrite !filter_cons.
  rewrite IH by (intros y ?; apply Hl; by right).
  destruct (Hl x) as [H1 H2]; [by left|].
  repeat case_decide; naive_solver.
Qed.

Lemma filter_all {A} (P : A → Prop) `{!∀ x, Decision (P x)} (l : list A) :
  (∀ x, P x) → filter P l = l.
Proof.
  intros HP. induction l as [|x l IH]; [done|].
  rewrite filter_cons, decide_True by done. by rewrite IH.
Qed.

Section dict_facts.
Context {V : Type}.
Implicit Types (d : dict V) (k : string) (v : V).

Lemma Dict_get_Some_keys d k v : Dict.get k d = Some v → k ∈ Dict.keys d.
Proof.
  induction d as [|[k' v'] d IH]; simpl; [done|].
  case_decide; subst; [intros _; left | intros ?; right; auto].
Qed.

Lemma Dict_get_None_keys d k : Dict.get k d = None ↔ k ∉ Dict.keys d.
Proof.
  induction d as [|[k' v'] d IH]; simpl.
  - split; [intros _; apply not_elem_of_nil | done].
  - rewrite not_elem_of_cons. case_decide; subst; [naive_solver|].
    rewrite IH. naive_solver.
Qed.

Lemma Dict_keys_setitem_in d k v :
  k ∈ Dict.keys d → Dict.keys (Dict.setitem k v d) = Dict.keys d.
Proof.
  induction d as [|[k' v'] d IH]; simpl; [by intros ?%elem_of_nil|].
  case_decide; subst; simpl; [done|].
  intros [?|?]%elem_of_cons; [done|]. f_equal. auto.
Qed.

Lemma Dict_keys_setitem_notin d k v :
  k ∉ Dict.keys d → Dict.keys (Dict.setitem k v d) = Dict.keys d ++ [k].
Proof.
  induction d as [|[k' v'] d IH]; simpl; [done|].
  rewrite not_elem_of_cons. intros [? ?].
  case_decide; subst; simpl; [done|]. f_equal. auto.
Qed.

Lemma Dict_elem_of_keys_setitem d k k' v :
  k' ∈ Dict.keys (Dict.setitem k v d) ↔ k' = k ∨ k' ∈ Dict.keys d.
Proof.
  destruct (decide (k ∈ Dict.keys d)) as [Hin|Hout].
  - rewrite Dict_keys_setitem_in by done. naive_solver.
  - rewrite Dict_keys_setitem_notin by done.
    rewrite elem_of_app, list_elem_of_singleton. naive_solver.
Qed.

Lemma Dict_get_setitem d k k' v :
  Dict.get k' (Dict.setitem k v d) =
    if decide (k = k') then Some v else Dict.get k' d.
Proof.
  induction d as [|[k0 v0] d IH]; simpl.
  - repeat case_decide; congruence.
  - destruct (decide (k0 = k)); simpl; repeat case_decide; congruence.
Qed.

Lemma Dict_keys_restrict ks d k :
  k ∈ Dict.keys (Dict.restrict ks d) ↔ k ∈ ks ∧ k ∈ Dict.keys d.
Proof.
  unfold Dict.keys, Dict.restrict. rewrite !list_elem_of_fmap. split.
  - intros ([k0 v0] & -> & [? ?]%list_elem_of_filter). simpl in *.
    split; [done|]. by exists (k0, v0).
  - intros (? & [k0 v0] & -> & ?). exists (k0, v0). split; [done|].
    by apply list_elem_of_filter.
Qed.

Lemma Dict_restrict_idemp ks d :
  Dict.restrict ks (Dict.restrict ks d) = Dict.restrict ks d.
Proof.
  unfold Dict.restrict. by apply list_filter_filter_l.
Qed.
End dict_facts.

(** ** Arrays *)

Section numpy_facts.
Context `{Backend}.

Lemma length_bind_const {A B} (f : A → list B) (l : list A) (m : nat) :
  (∀ x, length (f x) = m) → length (l ≫= f) = length l * m.
Proof.
  intros Hf. induction l as [|x l IH]; [done|].
  rewrite bind_cons, length_app, Hf, IH. simpl. lia.
Qed.

Lemma length_indices (shp : list nat) : length (indices shp) = size shp.
Proof.
  induction shp as [|n shp IH]; [done|]. simpl.
  rewrite (length_bind_const _ _ (size shp)).
  - by rewrite length_seq.
  - intros i. by rewrite length_fmap.
Qed.

(** A scalar fills the whole array. *)
Lemma np_full_scalar (shp : list nat) (x : scalar) :
  np_full shp (Scalar x) = OK {| shape := shp; flat := replicate (size shp) x |}.
Proof.
  unfold np_full, np_copyto, broadcastable. cbn [np_asarray shape flat].
  rewrite bool_decide_true by (simpl; lia). simpl. do 2 f_equal.
  rewrite <-length_indices. by apply const_fmap.
Qed.

Lemma np_full_zero (shp : list nat) :
  np_full shp (Scalar zero) = OK (np_zeros shp).
Proof. apply np_full_scalar. Qed.

Lemma np_full_one (shp : list nat) :
  np_full shp (Scalar one) = OK (np_ones shp).
Proof. apply np_full_scalar. Qed.

Lemma np_full_OK shp v a :
  np_full shp v = OK a →
  shape a = shp ∧ broadcastable (shape (np_asarray v)) shp = true.
Proof.
  unfold np_full, np_copyto.
  destruct (broadcastable _ _); [|done]. by intros [= <-].
Qed.

Lemma np_full_Err shp v e :
  np_full shp v = Err e →
  broadcastable (shape (np_asarray v)) shp = false ∧ ∃ msg, e = ValueError msg.
Proof.
  unfold np_full, np_copyto.
  destruct (broadcastable _ _); [done|]. intros [= <-]. eauto.
Qed.

Lemma TypedArray_OK ds dt raw da :
  TypedArray ds dt raw = OK da →
  dims da = ds ∧ dtype da = dt ∧ coords da = [] ∧
  shape (data da) = shape (np_asarray raw) ∧
  length (dims da) = length (shape (data da)).
Proof.
  unfold TypedArray. case_decide as Hlen; [|done].
  intros [= <-]. simpl. by destruct dt.
Qed.

Lemma TypedArray_is_OK ds dt raw :
  length ds = length (shape (np_asarray raw)) →
  ∃ da, TypedArray ds dt raw = OK da.
Proof. intros Hlen. unfold TypedArray. rewrite decide_True by done. eauto. Qed.

Lemma sizes_get_None (da : DataArray) (dim : string) :
  length (dims da) = length (shape (data da)) →
  Dict.get dim (sizes da) = None ↔ dim ∉ dims da.
Proof.
  intros Hlen. rewrite Dict_get_None_keys. unfold Dict.keys, sizes.
  by rewrite fst_zip by lia.
Qed.
End numpy_facts.

(** ** Creators *)

Section creator_facts.
Context `{Backend}.
Implicit Types (creator : Callable (result value)) (par : Param).

Lemma check_parameter_OK par : check_parameter par = OK () ↔ ¬ rejected par.
Proof.
  unfold check_parameter, rejected. repeat case_decide; naive_solver.
Qed.

Lemma check_parameter_Err par :
  rejected par → ∃ msg, check_parameter par = Err (ValueError msg).
Proof.
  unfold check_parameter, rejected. repeat case_decide; naive_solver.
Qed.

Lemma check_parameters_OK (sig : list Param) :
  Forall (λ par, ¬ rejected par) sig → for_ sig check_parameter = OK ().
Proof.
  induction 1 as [|par sig Hpar _ IH]; simpl; [done|].
  apply check_parameter_OK in Hpar. by rewrite Hpar.
Qed.

Lemma check_parameters_Err (sig : list Param) :
  Exists rejected sig → ∃ msg, for_ sig check_parameter = Err (ValueError msg).
Proof.
  induction sig as [|par sig IH]; [by intros ?%Exists_nil|].
  intros Hex. simpl.
  destruct (decide (rejected par)) as [Hr|Hr].
  - destruct (check_parameter_Err _ Hr) as [msg ->]. by exists msg.
  - apply Exists_cons in Hex as [?|?]; [done|].
    apply check_parameter_OK in Hr. rewrite Hr. simpl. by apply IH.
Qed.

(** The loop that pops the unknown keys leaves the entries whose key is a
    parameter name, in their order. *)
Lemma drop_unknown_restrict (sig : list Param) (kwargs : dict value) :
  drop_unknown sig kwargs = Dict.restrict (par_name <$> sig) kwargs.
Proof.
  unfold drop_unknown, Dict.restrict.
  set (names := par_name <$> sig).
  assert (Hgen : ∀ (ks : list string) (kw : dict value),
    foldl (λ kwargs key,
             if negb (in_parameters key sig) then Dict.pop key kwargs
             else kwargs) kw ks
    = filter (λ kv, kv.1 ∈ names ∨ kv.1 ∉ ks) kw).
  { induction ks as [|k ks IH]; intros kw; simpl.
    - symmetry. apply filter_all. intros kv. right. apply not_elem_of_nil.
    - rewrite IH. unfold in_parameters, Dict.pop. fold names.
      case_bool_decide as Hk; simpl.
      + apply list_filter_iff. intros kv. rewrite not_elem_of_cons.
        destruct (decide (kv.1 = k)) as [->|]; naive_solver.
      + etrans; [apply list_filter_filter|]. apply list_filter_iff. intros kv.
        rewrite not_elem_of_cons.
        destruct (decide (kv.1 = k)) as [->|]; naive_solver. }
  rewrite Hgen. apply filter_ext_elem. intros [k v] Hin. simpl.
  split; [|by left]. intros [?|Hout]; [done|].
  destruct Hout. unfold Dict.keys. apply list_elem_of_fmap. by exists (k, v).
Qed.

Lemma get_creator_OK creator ds dt :
  Forall (λ par, ¬ rejected par) (parameters creator) →
  get_creator creator ds dt =
    OK (set_return_annotation
          (copy_wraps creator (λ args kwargs,
             let kwargs := drop_unknown (parameters creator) kwargs in
             da ← lift (raw ← call creator args kwargs;
                        type_call (TDataArray ds dt) raw);
             new_object da))
          (TDataArray ds dt)).
Proof.
  intros Hsig. unfold get_creator.
  by rewrite (check_parameters_OK _ Hsig).
Qed.

(** C1. When every parameter of the base callable is typed and none is
    variadic, [get_creator] returns a creator, and a call of that creator
    with keyword arguments that include every parameter name is the same
    computation as the call with only the entries whose key is a parameter
    name: the base callable receives exactly the known keys, so no extra
    key can make the call fail. *)
Theorem creator_drops_unknown_keys creator ds dt args (kwargs : dict value) :
  Forall (λ par, ¬ rejected par) (parameters creator) →
  (∀ par, par ∈ parameters creator → par_name par ∈ Dict.keys kwargs) →
  let names := par_name <$> parameters creator in
  let known := Dict.restrict names kwargs in
  ∃ wrapper,
    get_creator creator ds dt = OK wrapper ∧
    call wrapper args kwargs = call wrapper args known ∧
    (∀ k, k ∈ Dict.keys known ↔ k ∈ names) ∧
    call wrapper args kwargs =
      (da ← lift (raw ← call creator args known;
                  type_call (TDataArray ds dt) raw);
       new_object da).
Proof.
  intros Hsig Hsup names known. eexists. split; [by apply get_creator_OK|].
  simpl. rewrite !drop_unknown_restrict. fold names known.
  unfold known at 2. rewrite Dict_restrict_idemp. fold known.
  split; [done|]. split; [|done].
  intros k. unfold known. rewrite Dict_keys_restrict.
  split; [naive_solver|]. intros Hk. split; [done|].
  apply list_elem_of_fmap in Hk as (par & -> & Hpar). by apply Hsup.
Qed.

(** C2, as the code has it.  [get_creator] raises [ValueError] when some
    parameter of the base callable has no type hint or collects the
    unbounded positional or keyword arguments; otherwise it returns a
    creator.  It never raises a [ConfigurationError]. *)
Theorem get_creator_fails_iff_rejected creator ds dt :
  (Exists rejected (parameters creator) →
     ∃ msg, get_creator creator ds dt = Err (ValueError msg)) ∧
  (¬ Exists rejected (parameters creator) →
     ∃ wrapper, get_creator creator ds dt = OK wrapper) ∧
  (∀ msg, get_creator creator ds dt ≠ Err (ConfigurationError msg)).
Proof.
  assert (Exists rejected (parameters creator) →
          ∃ msg, get_creator creator ds dt = Err (ValueError msg)) as Hfail.
  { intros Hex. unfold get_creator.
    destruct (check_parameters_Err _ Hex) as [msg ->]. by exists msg. }
  split; [exact Hfail|]. split.
  - intros Hno. eexists. apply get_creator_OK.
    apply Forall_forall. intros par Hpar Hr. apply Hno.
    apply Exists_exists. eauto.
  - intros msg Hconf.
    destruct (decide (Exists rejected (parameters creator))) as [Hex|Hno].
    + destruct (Hfail Hex) as [msg' Hvalue]. congruence.
    + rewrite get_creator_OK in Hconf; [done|].
      apply Forall_forall. intros par Hpar Hr. apply Hno.
      apply Exists_exists. eauto.
Qed.
End creator_facts.

(** ** Assembly: from the store to the object *)

Section run_facts.
Context `{Backend}.
Implicit Types (s : store) (l : loc) (da : DataArray) (inst : Instance).

Lemma comprehensionM_sizes s l da (ds : list string) :
  s !! l = Some da →
  comprehensionM (λ dim, sizes_getitem l dim) ds s =
    (comprehension (λ dim, Dict.getitem dim (sizes da)) ds, s).
Proof.
  intros Hl. induction ds as [|dim ds IH]; [done|].
  cbn [comprehensionM comprehension].
  unfold mbind at 1, M_bind at 1. unfold sizes_getitem at 1.
  unfold mbind at 1, M_bind at 1, load, lift. rewrite Hl.
  destruct (Dict.getitem dim (sizes da)) as [n|e]; [|done]. simpl.
  unfold mbind at 1, M_bind at 1. rewrite IH.
  by destruct (comprehension _ ds).
Qed.

(** [set_coord] replaces the object at its location by the object with
    the new coordinate, and leaves the store as it is when it raises. *)
Lemma set_coord_run s l da (field : Field) (v : value) :
  s !! l = Some da →
  set_coord l field v s =
    match coord_of da field v ≫= coords_update da (f_name field) with
    | OK da' => (OK (), <[l := da']> s)
    | Err e => (Err e, s)
    end.
Proof.
  intros Hl. unfold set_coord, coord_of.
  unfold mbind at 1, M_bind at 1, lift at 1.
  destruct (type_dims (f_type field)) as [ds|e]; [|done].
  cbn [mbind result_bind].
  unfold mbind at 1, M_bind at 1. rewrite (comprehensionM_sizes _ _ da) by done.
  destruct (comprehension _ ds) as [shp|e]; [|done].
  cbn [mbind result_bind].
  unfold mbind at 1, M_bind at 1, lift at 1.
  destruct (np_full shp v) as [a|e]; [|done]. cbn [mbind result_bind].
  destruct (type_call (f_type field) (Array a)) as [typed|e]; [|done].
  cbn [mbind result_bind].
  unfold coords_setitem. by rewrite Hl.
Qed.

Lemma attach_coords_run inst (fields : list Field) s l da :
  s !! l = Some da →
  for_ fields (λ field,
    if negb (isinstance_type (f_type field)) then mret ()
    else if negb (issubclass_DataArray (f_type field)) then mret ()
    else
      v ← lift (getattr inst (f_name field));
      set_coord l field v) s =
  ((attach_coords inst fields da).1, <[l := (attach_coords inst fields da).2]> s).
Proof.
  revert s da. induction fields as [|field fields IH]; intros s da Hl.
  - cbn [for_ attach_coords fst snd]. unfold mret, M_ret.
    by rewrite list_insert_id.
  - cbn [for_ attach_coords]. unfold mbind at 1, M_bind at 1.
    destruct (negb (isinstance_type (f_type field))); [by apply IH|].
    destruct (negb (issubclass_DataArray (f_type field))); [by apply IH|].
    unfold mbind at 1, M_bind at 1, lift at 1.
    destruct (getattr inst (f_name field)) as [v|e];
      [|simpl; by rewrite list_insert_id].
    rewrite (set_coord_run _ _ da) by done.
    destruct (coord_of da field v) as [item|e];
      [|simpl; by rewrite list_insert_id].
    cbn [mbind result_bind].
    destruct (coords_update da (f_name field) item) as [da'|e];
      [|simpl; by rewrite list_insert_id].
    rewrite (IH _ da').
    + by rewrite list_insert_insert_eq.
    + apply list_lookup_insert_eq. by eapply lookup_lt_Some.
Qed.

(** The whole of [to_dataarray], for a class whose creator was made by
    [get_creator]: the array is constructed at a new location, the
    coordinates are entered there, and nothing else is touched. *)
Lemma to_dataarray_run creator ds dt inst s :
  get_creator creator ds dt = OK (dataarray_creator (inst_class inst)) →
  to_dataarray inst s =
    match created creator ds dt inst with
    | Err e => (Err e, s)
    | OK da0 =>
        let r := attach_coords inst (dataclass_fields (inst_class inst)) da0 in
        (r.1 ≫= λ _, OK (length s), s ++ [r.2])
    end.
Proof.
  intros Hget. unfold to_dataarray, created.
  unfold mbind at 1, M_bind at 1, lift at 1.
  destruct (asdict inst) as [kwargs|e]; [|done]. simpl.
  unfold mbind at 1, M_bind at 1.
  unfold get_creator in Hget.
  destruct (for_ (parameters creator) check_parameter) as [[]|e]; [|done].
  simpl in Hget. injection Hget as <-. simpl.
  rewrite drop_unknown_restrict.
  unfold mbind at 1, M_bind at 1, lift at 1.
  destruct (call creator [] _) as [raw|e]; [|done]. simpl.
  destruct (TypedArray ds dt raw) as [da0|e]; [|done].
  unfold new_object. unfold mbind at 1, M_bind at 1.
  rewrite (attach_coords_run _ _ _ _ da0)
    by (by rewrite lookup_app_r, Nat.sub_diag by lia).
  destruct (attach_coords inst _ da0) as [[[]|e] da]; simpl.
  - f_equal. by rewrite insert_app_r_alt, Nat.sub_diag by lia.
  - f_equal. by rewrite insert_app_r_alt, Nat.sub_diag by lia.
Qed.
End run_facts.

(** ** The coordinate table *)

Section dict_more.
Context {V : Type}.
Implicit Types (d : dict V) (k : string) (v : V).

Lemma Dict_get_Some_elem d k v : Dict.get k d = Some v → (k, v) ∈ d.
Proof.
  induction d as [|[k' v'] d IH]; simpl; [done|].
  case_decide; [intros [= ->]; subst; by left|intros ?; right; auto].
Qed.

Lemma Dict_elem_of_setitem d k v (kv : string * V) :
  kv ∈ Dict.setitem k v d → kv = (k, v) ∨ kv ∈ d.
Proof.
  induction d as [|[k' v'] d IH]; simpl.
  - intros ?%list_elem_of_singleton. by left.
  - case_decide.
    + intros [->|?]%elem_of_cons; [by left|right; by right].
    + intros [->|?]%elem_of_cons; [right; by left|].
      destruct IH as [?|?]; [done|by left|right; by right].
Qed.

Lemma Dict_setitem_elem d k v : (k, v) ∈ Dict.setitem k v d.
Proof.
  induction d as [|[k' v'] d IH]; simpl; [by left|].
  case_decide; [by left|by right].
Qed.
End dict_more.

Section table_facts.
Context `{Backend}.
Implicit Types (da : DataArray) (coords : dict XVariable).
Implicit Types (axes : list (string * nat)) (sv : list string).

Lemma calculate_dimensions_from_Err sv axes (acc : dict nat) e :
  calculate_dimensions_from sv axes acc = Err e → ∃ msg, e = ValueError msg.
Proof.
  revert acc. induction axes as [|[dim n] axes IH]; intros acc; simpl; [done|].
  case_decide; [intros [= <-]; eauto|].
  destruct (Dict.get dim acc) as [m|]; [|by apply IH].
  case_decide; [by apply IH|intros [= <-]; eauto].
Qed.

Lemma calculate_dimensions_from_OK sv axes (acc dims' : dict nat) :
  calculate_dimensions_from sv axes acc = OK dims' →
  (∀ dim n, (dim, n) ∈ axes → dim ∉ sv) ∧
  (∀ dim, dim ∈ Dict.keys dims' ↔ dim ∈ Dict.keys acc ∨ dim ∈ axes.*1) ∧
  (∀ dim n, Dict.get dim acc = Some n → Dict.get dim dims' = Some n) ∧
  (∀ dim n, (dim, n) ∈ axes → Dict.get dim dims' = Some n).
Proof.
  revert acc. induction axes as [|[dim n] axes IH]; intros acc; simpl.
  - intros [= <-]. split; [by intros ?? ?%elem_of_nil|]. split.
    + intros k. rewrite elem_of_nil. naive_solver.
    + split; [done|]. by intros ?? ?%elem_of_nil.
  - case_decide as Hsv; [done|].
    destruct (Dict.get dim acc) as [m|] eqn:Hget.
    + case_decide as Hm; [subst m|done].
      intros (Hno & Hkeys & Hacc & Haxes)%IH. split; [|split; [|split]].
      * intros d k [[= -> ->]|?]%elem_of_cons; [done|by eapply Hno].
      * intros k. rewrite Hkeys, elem_of_cons.
        apply Dict_get_Some_keys in Hget. naive_solver.
      * done.
      * intros d k [[= -> ->]|?]%elem_of_cons; [by apply Hacc|by apply Haxes].
    + intros (Hno & Hkeys & Hacc & Haxes)%IH. split; [|split; [|split]].
      * intros d k [[= -> ->]|?]%elem_of_cons; [done|by eapply Hno].
      * intros k. rewrite Hkeys, Dict_elem_of_keys_setitem, elem_of_cons.
        naive_solver.
      * intros d k Hd. apply Hacc. rewrite Dict_get_setitem.
        rewrite decide_False; [done|]. intros <-. congruence.
      * intros d k [[= -> ->]|?]%elem_of_cons; [|by apply Haxes].
        apply Hacc. rewrite Dict_get_setitem. by rewrite decide_True.
Qed.

Lemma calculate_dimensions_from_is_OK sv axes (acc : dict nat) :
  (∀ dim n, (dim, n) ∈ axes → dim ∉ sv) →
  consistent (acc ++ axes) →
  is_OK (calculate_dimensions_from sv axes acc).
Proof.
  revert acc. induction axes as [|[dim n] axes IH]; intros acc Hsv Hcons; simpl.
  - by eexists.
  - rewrite decide_False by (eapply Hsv; by left).
    assert (∀ d k, (d, k) ∈ axes → d ∉ sv) as Hsv'
      by (intros d k ?; eapply Hsv; by right).
    destruct (Dict.get dim acc) as [m|] eqn:Hget.
    + apply Dict_get_Some_elem in Hget.
      rewrite decide_True.
      * apply IH; [done|]. intros d k1 k2 Hk1 Hk2.
        apply (Hcons d); rewrite elem_of_app, elem_of_cons;
          rewrite elem_of_app in Hk1, Hk2; tauto.
      * apply (Hcons dim); rewrite elem_of_app, elem_of_cons; auto.
    + apply IH; [done|].
      assert (∀ d k, (d, k) ∈ Dict.setitem dim n acc ++ axes →
                     (d, k) ∈ acc ++ (dim, n) :: axes) as Hsub.
      { intros d k. rewrite !elem_of_app, elem_of_cons.
        intros [[?|?]%Dict_elem_of_setitem|?]; auto. }
      intros d k1 k2 Hk1%Hsub Hk2%Hsub. by apply (Hcons d).
Qed.
Lemma scalar_names_omap coords :
  omap (λ kv : option string * XVariable,
          if decide (v_dims kv.2 = []) then kv.1 else None)
       ((λ kv, (Some kv.1, kv.2)) <$> coords) = scalar_names coords.
Proof.
  unfold scalar_names. induction coords as [|[k v] coords IH]; [done|].
  rewrite fmap_cons, filter_cons. cbn [omap list_omap fst snd].
  rewrite IH. by case_decide.
Qed.

Lemma table_axes_bind coords :
  (((λ kv, (Some kv.1, kv.2)) <$> coords) ≫=
     λ kv : option string * XVariable, axes_of kv.2) = table_axes coords.
Proof.
  unfold table_axes. induction coords as [|[k v] coords IH]; [done|].
  rewrite fmap_cons, !bind_cons. simpl. by rewrite IH.
Qed.

Lemma calculate_dimensions_table da coords :
  calculate_dimensions
    (((λ kv, (Some kv.1, kv.2)) <$> coords) ++ [(None, as_variable (dims da) da)])
  = calculate_dimensions_from (scalar_names coords)
      (table_axes coords ++ sizes da) [].
Proof.
  unfold calculate_dimensions. f_equal.
  - rewrite omap_app, scalar_names_omap. simpl.
    case_decide; simpl; by rewrite app_nil_r.
  - rewrite bind_app, table_axes_bind. f_equal. simpl. by rewrite app_nil_r.
Qed.

Lemma elem_of_sizes da (dim : string) (n : nat) :
  (dim, n) ∈ sizes da → dim ∈ dims da.
Proof. unfold sizes. intros Hin. by eapply elem_of_zip_l. Qed.

Lemma update_coords_same da coords name item :
  update_coords (with_coord da name item) coords =
    (da' ← update_coords da coords; OK da').
Proof.
  unfold update_coords. simpl.
  destruct (calculate_dimensions _); [|done]. simpl. by case_decide.
Qed.

Lemma update_coords_OK da coords da' :
  update_coords da coords = OK da' →
  da' = {| dims := dims da; dtype := dtype da; data := data da;
           coords := coords |} ∧
  (∀ dim n, (dim, n) ∈ table_axes coords ++ sizes da →
            dim ∉ scalar_names coords) ∧
  consistent (table_axes coords ++ sizes da) ∧
  (∀ dim n, (dim, n) ∈ table_axes coords → dim ∈ dims da).
Proof.
  unfold update_coords. cbn zeta. rewrite calculate_dimensions_table.
  destruct (calculate_dimensions_from _ _ _) as [dims'|] eqn:Hcalc; [|done].
  cbn [mbind result_bind]. case_decide as Hsub; [|done]. intros [= <-].
  apply calculate_dimensions_from_OK in Hcalc as (Hno & Hkeys & _ & Haxes).
  split; [done|]. split; [done|]. split.
  - intros dim n m Hn%Haxes Hm%Haxes. congruence.
  - intros dim n Hin. rewrite Forall_forall in Hsub. apply Hsub.
    apply Hkeys. right. apply list_elem_of_fmap. exists (dim, n).
    split; [done|]. apply elem_of_app. by left.
Qed.

Lemma update_coords_Err da coords e :
  update_coords da coords = Err e → ∃ msg, e = ValueError msg.
Proof.
  unfold update_coords. cbn zeta. rewrite calculate_dimensions_table.
  destruct (calculate_dimensions_from _ _ _) as [dims'|] eqn:Hcalc.
  - cbn [mbind result_bind]. case_decide; [done|]. intros [= <-]. eauto.
  - cbn [mbind result_bind]. intros [= <-].
    by eapply calculate_dimensions_from_Err.
Qed.

Lemma update_coords_is_OK da coords :
  (∀ dim n, (dim, n) ∈ table_axes coords ++ sizes da →
            dim ∉ scalar_names coords) →
  consistent (table_axes coords ++ sizes da) →
  (∀ dim n, (dim, n) ∈ table_axes coords → dim ∈ dims da) →
  update_coords da coords =
    OK {| dims := dims da; dtype := dtype da; data := data da;
          coords := coords |}.
Proof.
  intros Hno Hcons Hsub. unfold update_coords. cbn zeta.
  rewrite calculate_dimensions_table.
  destruct (calculate_dimensions_from_is_OK (scalar_names coords)
              (table_axes coords ++ sizes da) []) as [dims' Hcalc]; [done..|].
  rewrite Hcalc. cbn [mbind result_bind]. rewrite decide_True; [done|].
  apply calculate_dimensions_from_OK in Hcalc as (_ & Hkeys & _).
  apply Forall_forall. intros dim [Hin|Hin]%Hkeys.
  - by apply elem_of_nil in Hin.
  - apply list_elem_of_fmap in Hin as ([d n] & -> & Hin). simpl.
    apply elem_of_app in Hin as [Hin|Hin]; [by eapply Hsub|].
    by eapply elem_of_sizes.
Qed.

Lemma elem_of_table_axes coords (dim : string) (n : nat) :
  (dim, n) ∈ table_axes coords ↔
  ∃ name var, (name, var) ∈ coords ∧ (dim, n) ∈ axes_of var.
Proof.
  unfold table_axes. rewrite list_elem_of_bind. split.
  - intros ([name var] & ? & ?). eauto.
  - intros (name & var & ? & ?). by exists (name, var).
Qed.

Lemma elem_of_scalar_names coords (name : string) :
  name ∈ scalar_names coords ↔ ∃ var, (name, var) ∈ coords ∧ v_dims var = [].
Proof.
  unfold scalar_names. rewrite list_elem_of_fmap. split.
  - intros ([k var] & -> & [? ?]%list_elem_of_filter). eauto.
  - intros (var & ? & ?). exists (name, var). split; [done|].
    by apply list_elem_of_filter.
Qed.

Lemma coords_update_OK da name item da' :
  coords_update da name item = OK da' → da' = with_coord da name item.
Proof.
  unfold coords_update, variable_of. repeat case_decide; try done.
  cbn [mbind result_bind]. by intros (-> & _)%update_coords_OK.
Qed.

Lemma coords_update_Err da name item e :
  coords_update da name item = Err e →
  (∃ msg, e = ValueError msg) ∨ (∃ msg, e = MissingDimensionsError msg).
Proof.
  unfold coords_update, variable_of. repeat case_decide.
  - intros [= <-]. eauto.
  - intros [= <-]. eauto.
  - cbn [mbind result_bind]. intros ?%update_coords_Err. by left.
Qed.

(** What the coordinate table answers to an entry that [set_coord] makes
    for a well-formed array: xarray refuses the two kinds of names, and
    enters every other entry, which leaves the array well-formed. *)
Lemma coords_update_cases da name (ds : list string) (typed : DataArray) :
  well_formed da →
  Forall2 (λ dim n, Dict.getitem dim (sizes da) = OK n)
          ds (shape (data typed)) →
  (name ∈ ds ∧ length ds ≠ 1 →
     ∃ msg, coords_update da name (ds, typed) =
              Err (MissingDimensionsError msg)) ∧
  (¬ (name ∈ ds ∧ length ds ≠ 1) → ds = [] ∧ name ∈ dims da →
     ∃ msg, coords_update da name (ds, typed) = Err (ValueError msg)) ∧
  (¬ (name ∈ ds ∧ length ds ≠ 1) → ¬ (ds = [] ∧ name ∈ dims da) →
     coords_update da name (ds, typed) = OK (with_coord da name (ds, typed)) ∧
     well_formed (with_coord da name (ds, typed))).
Proof.
  intros [Hlen [da1 Hwf]] Hshape.
  apply update_coords_OK in Hwf as (_ & Hno & Hcons & Hsub).
  pose proof (Forall2_length _ _ _ Hshape) as Hds.
  assert (∀ dim n, (dim, n) ∈ axes_of (as_variable ds typed) →
                   (dim, n) ∈ sizes da) as Hnew.
  { intros dim n Hin. unfold axes_of in Hin. simpl in Hin.
    apply list_elem_of_lookup in Hin as [i Hi].
    apply lookup_zip_Some in Hi as [Hd Hn].
    pose proof (Forall2_lookup_lr _ _ _ _ _ _ Hshape Hd Hn) as Hget.
    unfold Dict.getitem in Hget.
    destruct (Dict.get dim (sizes da)) as [k|] eqn:Hk; [|done].
    injection Hget as ->. by apply Dict_get_Some_elem. }
  unfold coords_update, variable_of. cbn [fst snd].
  rewrite (decide_False (P := length ds ≠ _)) by (intros ?; done).
  split; [|split].
  - intros Hname. rewrite decide_True by done. eauto.
  - intros Hname [-> Hin]. rewrite decide_False by done.
    cbn [mbind result_bind].
    destruct (update_coords da _) as [da2|e] eqn:Hupd;
      [|apply update_coords_Err in Hupd as [msg ->]; eauto].
    exfalso. apply update_coords_OK in Hupd as (_ & Hno' & _).
    apply list_elem_of_lookup in Hin as [i Hi].
    destruct (lookup_lt_is_Some_2 (shape (data da)) i) as [n Hn].
    { rewrite <-Hlen. by eapply lookup_lt_Some. }
    apply (Hno' name n).
    + apply elem_of_app. right. unfold sizes.
      apply list_elem_of_lookup. exists i. by apply lookup_zip_Some.
    + apply elem_of_scalar_names. eexists. split; [apply Dict_setitem_elem|done].
  - intros Hname Hscalar. rewrite decide_False by done.
    cbn [mbind result_bind].
    assert (update_coords da
              (Dict.setitem name (as_variable ds typed) (coords da)) =
            OK (with_coord da name (ds, typed))) as Hupd.
    { apply update_coords_is_OK.
      - intros dim n Hin [var [Hvar Hnil]]%elem_of_scalar_names.
        assert (dim ∈ dims da) as Hdim.
        { apply elem_of_app in Hin as [Hin|Hin]; [|by eapply elem_of_sizes].
          apply elem_of_table_axes in Hin as (k & v & Hkv & Hax).
          apply Dict_elem_of_setitem in Hkv as [[= -> ->]|Hkv].
          - eapply elem_of_sizes. by apply Hnew.
          - eapply Hsub. apply elem_of_table_axes. eauto. }
        apply Dict_elem_of_setitem in Hvar as [[= -> ->]|Hvar].
        + simpl in Hnil. by destruct Hscalar.
        + assert (∃ m, (dim, m) ∈ table_axes (coords da) ++ sizes da)
            as [m Hm].
          { apply elem_of_app in Hin as [Hin|Hin].
            - apply elem_of_table_axes in Hin as (k & v & Hkv & Hax).
              apply Dict_elem_of_setitem in Hkv as [[= -> ->]|Hkv].
              + exists n. apply elem_of_app. right. by apply Hnew.
              + exists n. apply elem_of_app. left.
                apply elem_of_table_axes. eauto.
            - exists n. apply elem_of_app. by right. }
          apply (Hno dim m Hm). apply elem_of_scalar_names. eauto.
      - assert (∀ dim n,
          (dim, n) ∈ table_axes (Dict.setitem name (as_variable ds typed)
                                   (coords da)) ++ sizes da →
          (dim, n) ∈ table_axes (coords da) ++ sizes da) as Hin'.
        { intros dim n. rewrite !elem_of_app.
          intros [Hin|Hin]; [|by right].
          apply elem_of_table_axes in Hin as (k & v & Hkv & Hax).
          apply Dict_elem_of_setitem in Hkv as [[= -> ->]|Hkv].
          - right. by apply Hnew.
          - left. apply elem_of_table_axes. eauto. }
        intros dim n m Hn%Hin' Hm%Hin'. by apply (Hcons dim).
      - intros dim n Hin.
        apply elem_of_table_axes in Hin as (k & v & Hkv & Hax).
        apply Dict_elem_of_setitem in Hkv as [[= -> ->]|Hkv].
        + eapply elem_of_sizes. by apply Hnew.
        + eapply Hsub. apply elem_of_table_axes. eauto. }
    split; [exact Hupd|]. split; [done|].
    rewrite update_coords_same. cbn [coords with_coord fst snd].
    rewrite Hupd. by eexists.
Qed.
End table_facts.

(** ** Assembly: the coordinates *)

Section coord_facts.
Context `{Backend}.
Implicit Types (da : DataArray) (inst : Instance) (field : Field).

Lemma coordinate_field_is_field field :
  coordinate_field field → field_type (f_type field) = FIELD.
Proof. unfold coordinate_field. by destruct (f_type field). Qed.

Lemma asdict_getattr inst kwargs field :
  asdict inst = OK kwargs →
  field ∈ fields (inst_class inst) →
  ∃ v, getattr inst (f_name field) = OK v.
Proof.
  unfold asdict. generalize (fields (inst_class inst)).
  intros fs. revert kwargs.
  induction fs as [|f fs IH]; intros kwargs Hk Hin.
  - by apply elem_of_nil in Hin.
  - simpl in Hk.
    destruct (getattr inst (f_name f)) as [v|] eqn:Hv; [|done]. simpl in Hk.
    destruct (comprehension _ fs) as [kw|] eqn:Hkw; [|done].
    apply elem_of_cons in Hin as [->|Hin]; [eauto|].
    by eapply IH.
Qed.

(** [asdict] has read the value of every coordinate field. *)
Lemma asdict_getattr_coordinate inst kwargs field :
  asdict inst = OK kwargs →
  field ∈ dataclass_fields (inst_class inst) →
  coordinate_field field →
  ∃ v, getattr inst (f_name field) = OK v.
Proof.
  intros Hkw Hin Hc. eapply asdict_getattr; [done|].
  apply list_elem_of_filter. split; [|done].
  by apply coordinate_field_is_field.
Qed.

(** The extents are read off the axis table; the first unknown dimension
    raises [KeyError]. *)
Lemma comprehension_sizes da (ds : list string) :
  length (dims da) = length (shape (data da)) →
  (Forall (λ dim, dim ∈ dims da) ds ∧
   comprehension (λ dim, Dict.getitem dim (sizes da)) ds =
     OK ((λ dim, default 0 (Dict.get dim (sizes da))) <$> ds)) ∨
  (Exists (λ dim, dim ∉ dims da) ds ∧
   ∃ key, comprehension (λ dim, Dict.getitem dim (sizes da)) ds =
            Err (KeyError key) ∧ key ∈ ds ∧ key ∉ dims da).
Proof.
  intros Hlen. unfold Dict.getitem.
  induction ds as [|dim ds IH]; [by left|].
  cbn [comprehension fmap list_fmap].
  destruct (Dict.get dim (sizes da)) as [n|] eqn:Hn;
    cbn [mbind result_bind default].
  - assert (dim ∈ dims da) as Hin.
    { destruct (decide (dim ∈ dims da)) as [|Hout]; [done|].
      apply sizes_get_None in Hout; [congruence|done]. }
    destruct IH as [[Hall ->]|[Hex (key & -> & Hkey & Hout)]].
    + left. split; [by constructor|done].
    + right. split; [by apply Exists_cons_tl|].
      exists key. split; [done|]. split; [by right|done].
  - right. apply sizes_get_None in Hn; [|done]. split.
    + by apply Exists_cons_hd.
    + exists dim. split; [done|]. split; [by left|done].
Qed.

Lemma unknown_dim_Exists da field :
  unknown_dim da field ↔ Exists (λ dim, dim ∉ dims da) (field_dims field).
Proof. unfold unknown_dim. by rewrite Exists_exists. Qed.

Lemma target_shape_sizes da field :
  length (dims da) = length (shape (data da)) →
  ¬ unknown_dim da field →
  Forall2 (λ dim n, Dict.getitem dim (sizes da) = OK n)
          (field_dims field) (target_shape da field).
Proof.
  intros Hlen Hknown. unfold target_shape. apply Forall2_fmap_r.
  apply Forall_Forall2_diag, Forall_forall. intros dim Hdim.
  unfold Dict.getitem, compose.
  destruct (Dict.get dim (sizes da)) eqn:Hget; [done|].
  apply sizes_get_None in Hget; [|done].
  destruct Hknown. by exists dim.
Qed.

(** What [set_coord] enters for a coordinate field, case by case. *)
Lemma coord_of_cases da field v :
  coordinate_field field →
  length (dims da) = length (shape (data da)) →
  (unknown_dim da field ∧
     ∃ key, coord_of da field v = Err (KeyError key) ∧
            key ∈ field_dims field ∧ key ∉ dims da) ∨
  (¬ unknown_dim da field ∧ cannot_broadcast da field v ∧
     ∃ msg, coord_of da field v = Err (ValueError msg)) ∨
  (¬ unknown_dim da field ∧ ¬ cannot_broadcast da field v ∧
     ∃ full typed,
       np_full (target_shape da field) v = OK full ∧
       TypedArray (field_dims field) (field_dtype field) (Array full) = OK typed ∧
       coord_of da field v = OK (field_dims field, typed)).
Proof.
  intros Hc Hlen. rewrite unknown_dim_Exists.
  unfold coord_of, cannot_broadcast, target_shape, field_dims, field_dtype.
  unfold coordinate_field in Hc.
  destruct (f_type field) as [ds dt| | | |] eqn:Hty; try done. simpl.
  destruct (comprehension_sizes da ds Hlen)
    as [[Hall ->]|[Hex (key & -> & Hkey)]].
  - right. simpl.
    assert (¬ Exists (λ dim, dim ∉ dims da) ds) as Hno.
    { rewrite Exists_exists. intros (dim & Hin & Hout).
      rewrite Forall_forall in Hall. naive_solver. }
    set (target := (λ dim, default 0 (Dict.get dim (sizes da))) <$> ds).
    destruct (np_full target v) as [full|e] eqn:Hfull.
    + right. apply np_full_OK in Hfull as Hf. destruct Hf as [Hshape Hb].
      split; [done|]. split; [congruence|].
      destruct (TypedArray_is_OK ds dt (Array full)) as [typed Htyped].
      { simpl. rewrite Hshape. unfold target. by rewrite length_fmap. }
      exists full, typed. cbn [mbind result_bind type_call].
      by rewrite Htyped.
    + left. apply np_full_Err in Hfull as [Hb [msg ->]]. eauto.
  - left. split; [done|]. simpl. eauto.
Qed.

(** What [set_coord] does to a well-formed array for a coordinate field:
    it raises for a field that cannot be attached, and enters the
    coordinate of every other field, which leaves the array well-formed. *)
Lemma set_coord_on_cases inst da field v :
  coordinate_field field →
  well_formed da →
  getattr inst (f_name field) = OK v →
  (cannot_attach inst da field ∧
     ∃ e, set_coord_on da field v = Err e ∧ raised_for inst da field e) ∨
  (¬ cannot_attach inst da field ∧
     ∃ item,
       coord_of da field v = OK item ∧
       set_coord_on da field v = OK (with_coord da (f_name field) item) ∧
       well_formed (with_coord da (f_name field) item)).
Proof.
  intros Hc Hwf Hv. pose proof Hwf as [Hlen _]. unfold set_coord_on.
  destruct (coord_of_cases da field v Hc Hlen)
    as [(Hunk & key & -> & Hkey)|[(Hknown & Hcannot & msg & ->)|
        (Hknown & Hcan & full & typed & Hfull & Htyped & ->)]];
    cbn [mbind result_bind].
  - left. split; [split; [done|by left]|]. eexists. split; [done|].
    split; [eauto|]. split; intros ?; done.
  - left. split; [split; [done|right; left; eauto]|]. eexists. split; [done|].
    split; [done|]. split; [eauto|]. intros _ Hno. destruct Hno. eauto.
  - assert (∀ v', getattr inst (f_name field) = OK v' →
                  ¬ cannot_broadcast da field v') as Hcan'.
    { intros v' Hv'. rewrite Hv in Hv'. by injection Hv' as <-. }
    destruct (coords_update_cases da (f_name field) (field_dims field) typed Hwf)
      as (Hmissing & Hscalar & Hattach).
    { apply np_full_OK in Hfull as [Hshape _].
      apply TypedArray_OK in Htyped as (_ & _ & _ & -> & _). simpl.
      rewrite Hshape. by apply target_shape_sizes. }
    destruct (decide (f_name field ∈ field_dims field ∧
                      length (field_dims field) ≠ 1)) as [Hm|Hm].
    { left. destruct (Hmissing Hm) as [msg ->].
      split; [split; [done|right; right; by left]|]. eexists. split; [done|].
      split; [done|]. split; [intros _ (v' & ? & ?); by destruct (Hcan' v')|].
      intros _ _. split; [eauto|done]. }
    destruct (decide (field_dims field = [] ∧ f_name field ∈ dims da))
      as [Hs|Hs].
    { left. destruct (Hscalar Hm Hs) as [msg ->].
      split; [split; [done|right; right; by right]|]. eexists. split; [done|].
      split; [done|]. split; [intros _ (v' & ? & ?); by destruct (Hcan' v')|].
      intros _ _. split; [done|eauto]. }
    right. destruct (Hattach Hm Hs) as [-> Hwf']. split.
    + intros [_ [?|[(v' & ? & ?)|[?|?]]]]; [done|by destruct (Hcan' v')|done..].
    + eauto.
Qed.
End coord_facts.

(** ** Assembly: the loop over the fields *)

Section attach_facts.
Context `{Backend}.
Implicit Types (da : DataArray) (inst : Instance) (field : Field).

Lemma coord_of_ext da da' field v :
  dims da = dims da' → data da = data da' →
  coord_of da field v = coord_of da' field v.
Proof. unfold coord_of, sizes. by intros -> ->. Qed.

Lemma set_coord_on_OK da field v da' :
  set_coord_on da field v = OK da' →
  ∃ item, coord_of da field v = OK item ∧
          da' = with_coord da (f_name field) item.
Proof.
  unfold set_coord_on. destruct (coord_of da field v) as [item|]; [|done].
  cbn [mbind result_bind]. intros ->%coords_update_OK. eauto.
Qed.

(** One step of the loop. *)
Lemma attach_coords_cons inst field (fields : list Field) da :
  attach_coords inst (field :: fields) da =
    if coordinate_field field then
      match getattr inst (f_name field) with
      | Err e => (Err e, da)
      | OK v =>
          match set_coord_on da field v with
          | Err e => (Err e, da)
          | OK da' => attach_coords inst fields da'
          end
      end
    else attach_coords inst fields da.
Proof.
  cbn [attach_coords]. unfold coordinate_field, set_coord_on.
  destruct (isinstance_type _), (issubclass_DataArray _); try done.
  simpl. destruct (getattr inst (f_name field)); [|done].
  by destruct (coord_of da field _).
Qed.

(** The loop changes the coordinate table only. *)
Lemma attach_coords_frame inst (fields : list Field) da :
  dims (attach_coords inst fields da).2 = dims da ∧
  dtype (attach_coords inst fields da).2 = dtype da ∧
  data (attach_coords inst fields da).2 = data da.
Proof.
  revert da. induction fields as [|field fields IH]; intros da; [done|].
  rewrite attach_coords_cons.
  destruct (coordinate_field field); [|apply IH].
  destruct (getattr inst (f_name field)) as [v|e]; [|done].
  destruct (set_coord_on da field v) as [da'|e] eqn:Hset; [|done].
  apply set_coord_on_OK in Hset as (item & _ & ->).
  destruct (IH (with_coord da (f_name field) item)) as (-> & -> & ->). done.
Qed.


(** After a run without error the coordinate table has, behind the keys
    it had, the names of the coordinate fields in declaration order. *)
Lemma attach_coords_keys inst (fields : list Field) da :
  NoDup (f_name <$> fields) →
  (∀ field, field ∈ fields → f_name field ∉ Dict.keys (coords da)) →
  (attach_coords inst fields da).1 = OK () →
  Dict.keys (coords (attach_coords inst fields da).2) =
    Dict.keys (coords da) ++ (f_name <$> filter coordinate_field fields).
Proof.
  revert da. induction fields as [|field fields IH]; intros da Hnd Hfresh Hok.
  - simpl. by rewrite app_nil_r.
  - rewrite fmap_cons in Hnd. apply NoDup_cons in Hnd as [Hhd Hnd].
    rewrite attach_coords_cons in Hok |- *. rewrite filter_cons.
    destruct (coordinate_field field) eqn:Hc.
    + rewrite decide_True by done.
      destruct (getattr inst (f_name field)) as [v|e]; [|done].
      destruct (set_coord_on da field v) as [da'|e] eqn:Hset; [|done].
      apply set_coord_on_OK in Hset as (item & _ & ->).
      rewrite IH; [| done | | done].
      * simpl. rewrite Dict_keys_setitem_notin by (apply Hfresh; by left).
        by rewrite <-app_assoc.
      * intros f Hf. simpl. rewrite Dict_elem_of_keys_setitem.
        intros [Heq|Hin].
        -- apply Hhd. rewrite <-Heq. by apply list_elem_of_fmap_2.
        -- revert Hin. apply Hfresh. by right.
    + rewrite decide_False by (simpl; tauto).
      apply IH; [done| |done]. intros f Hf. apply Hfresh. by right.
Qed.


(** The loop raises at the first coordinate field it cannot attach, and
    runs through when there is none. *)
Lemma attach_coords_result inst (fields : list Field) da :
  well_formed da →
  (∀ field, field ∈ fields → coordinate_field field →
            ∃ v, getattr inst (f_name field) = OK v) →
  (∀ before field after,
     fields = before ++ field :: after →
     Forall (λ f, ¬ cannot_attach inst da f) before →
     cannot_attach inst da field →
     ∃ e, (attach_coords inst fields da).1 = Err e ∧
          raised_for inst da field e) ∧
  (Exists (cannot_attach inst da) fields →
     ∃ e, (attach_coords inst fields da).1 = Err e ∧
          ((∃ key, e = KeyError key) ∨ (∃ msg, e = ValueError msg) ∨
           (∃ msg, e = MissingDimensionsError msg))) ∧
  (¬ Exists (cannot_attach inst da) fields →
     (attach_coords inst fields da).1 = OK ()).
Proof.
  revert da. induction fields as [|field fields IH]; intros da Hwf Hattr.
  { split; [|split; [by intros ?%Exists_nil|done]].
    intros [|??] ?? Heq; discriminate. }
  assert (∀ f, f ∈ fields → coordinate_field f →
               ∃ v, getattr inst (f_name f) = OK v) as Hattr'.
  { intros f Hf. apply Hattr. by right. }
  rewrite attach_coords_cons.
  destruct (coordinate_field field) eqn:Hc.
  - destruct (Hattr field) as [v Hv]; [by left|by rewrite Hc|]. rewrite Hv.
    destruct (set_coord_on_cases inst da field v)
      as [(Hbad & e & -> & Hraised)|(Hgood & item & _ & -> & Hwf')];
      [by rewrite Hc|done..| |].
    + split; [|split].
      * intros [|f before] fld after Heq Hbefore Hfld.
        -- injection Heq as <- <-. eauto.
        -- injection Heq as <- ->. by apply Forall_cons in Hbefore as [? _].
      * intros _. exists e. split; [done|].
        destruct Hraised as (Hkey & Hvalue & Hname).
        destruct Hbad as [_ [Hunk|[Hcannot|Hrefused]]].
        -- left. destruct (Hkey Hunk) as (key & -> & _). eauto.
        -- destruct (decide (Exists (λ dim, dim ∉ dims da) (field_dims field)))
             as [Hunk%unknown_dim_Exists|Hknown].
           ++ left. destruct (Hkey Hunk) as (key & -> & _). eauto.
           ++ right. left. apply Hvalue; [|done].
              by rewrite unknown_dim_Exists.
        -- destruct (decide (Exists (λ dim, dim ∉ dims da) (field_dims field)))
             as [Hunk%unknown_dim_Exists|Hknown].
           { left. destruct (Hkey Hunk) as (key & -> & _). eauto. }
           rewrite <-unknown_dim_Exists in Hknown.
           destruct (decide (broadcastable (shape (np_asarray v))
                               (target_shape da field) = false))
             as [Hcannot|Hcan].
           { right. left. apply Hvalue; eauto. }
           assert (¬ (∃ v', getattr inst (f_name field) = OK v' ∧
                            cannot_broadcast da field v')) as Hcan'.
           { intros (v' & Hv' & ?). rewrite Hv in Hv'.
             by injection Hv' as <-. }
           destruct (Hname Hknown Hcan') as [Hmissing Hscalar].
           destruct (decide (f_name field ∈ field_dims field ∧
                             length (field_dims field) ≠ 1)) as [Hm|Hm].
           ++ right. right. by apply Hmissing.
           ++ right. left. by apply Hscalar.
      * intros Hno. destruct Hno. by apply Exists_cons_hd.
    + destruct (IH (with_coord da (f_name field) item) Hwf' Hattr')
        as (IHfirst & IHerr & IHok).
      split; [|split].
      * intros [|f before] fld after Heq Hbefore Hfld.
        -- injection Heq as <- <-. done.
        -- injection Heq as <- ->. apply Forall_cons in Hbefore as [_ Hbefore].
           by apply (IHfirst before fld after).
      * intros [Hbad|Hbad]%Exists_cons; [done|by apply IHerr].
      * intros Hno. apply IHok. intros Hex. apply Hno.
        by apply Exists_cons_tl.
  - destruct (IH da Hwf Hattr') as (IHfirst & IHerr & IHok).
    split; [|split].
    + intros [|f before] fld after Heq Hbefore Hfld.
      * injection Heq as <- <-. destruct Hfld as [Hfld _].
        by rewrite Hc in Hfld.
      * injection Heq as <- ->. apply Forall_cons in Hbefore as [_ Hbefore].
        by apply (IHfirst before fld after).
    + intros [Hbad|Hbad]%Exists_cons; [|by apply IHerr].
      destruct Hbad as [Hbad _]. by rewrite Hc in Hbad.
    + intros Hno. apply IHok. intros Hex. apply Hno. by apply Exists_cons_tl.
Qed.
End attach_facts.

(** ** Assembly: the theorems *)

Section to_dataarray_facts.
Context `{Backend}.
Implicit Types (da : DataArray) (inst : Instance) (field : Field).
Implicit Types (creator : Callable (result value)) (s : store).

Lemma created_OK creator ds dt inst da0 :
  created creator ds dt inst = OK da0 →
  dims da0 = ds ∧ dtype da0 = dt ∧ coords da0 = [] ∧
  length (dims da0) = length (shape (data da0)) ∧
  ∃ kwargs, asdict inst = OK kwargs.
Proof.
  unfold created. destruct (asdict inst) as [kwargs|]; [|done]. simpl.
  destruct (call creator [] _) as [raw|]; [|done]. simpl.
  intros (? & ? & ? & _ & ?)%TypedArray_OK. eauto 10.
Qed.

Lemma NoDup_fst_unique {A B} (l : list (A * B)) (x : A) (y1 y2 : B) :
  NoDup (l.*1) → (x, y1) ∈ l → (x, y2) ∈ l → y1 = y2.
Proof.
  induction l as [|[x' y'] l IH]; [by intros _ ?%elem_of_nil|].
  rewrite fmap_cons. intros [Hhd Hnd]%NoDup_cons. simpl in Hhd.
  intros [H1|H1]%elem_of_cons [H2|H2]%elem_of_cons.
  - congruence.
  - injection H1 as -> ->. destruct Hhd.
    apply list_elem_of_fmap. by exists (x', y2).
  - injection H2 as -> ->. destruct Hhd.
    apply list_elem_of_fmap. by exists (x', y1).
  - by apply IH.
Qed.

(** An array without coordinates whose axes have different names is
    well-formed. *)
Lemma well_formed_no_coords da :
  length (dims da) = length (shape (data da)) →
  NoDup (dims da) → coords da = [] → well_formed da.
Proof.
  intros Hlen Hnd Hcoords. split; [done|]. rewrite Hcoords.
  eexists. apply update_coords_is_OK.
  - intros dim n _ Hin. by apply elem_of_nil in Hin.
  - intros dim n m Hn Hm. simpl in Hn, Hm.
    eapply NoDup_fst_unique; [|exact Hn|exact Hm].
    unfold sizes. by rewrite fst_zip by lia.
  - intros dim n Hin. by apply elem_of_nil in Hin.
Qed.

(** A successful [to_dataarray] returns the location of the object the
    loop has worked on. *)
Lemma to_dataarray_OK creator ds dt inst s l s' :
  get_creator creator ds dt = OK (dataarray_creator (inst_class inst)) →
  to_dataarray inst s = (OK l, s') →
  ∃ da0,
    created creator ds dt inst = OK da0 ∧
    (attach_coords inst (dataclass_fields (inst_class inst)) da0).1 = OK () ∧
    l = length s ∧
    s' !! l = Some (attach_coords inst (dataclass_fields (inst_class inst)) da0).2.
Proof.
  intros Hget. rewrite (to_dataarray_run _ _ _ _ _ Hget).
  destruct (created creator ds dt inst) as [da0|]; [|done].
  destruct (attach_coords inst _ da0) as [[[]|e] da] eqn:Hattach;
    simpl; [|done].
  intros [= <- <-]. exists da0. rewrite Hattach.
  split; [done|]. split; [done|]. split; [done|].
  by rewrite lookup_app_r, Nat.sub_diag by lia.
Qed.

(** C3. After a successful [to_dataarray] the keys of the coordinate table
    are the names of the coordinate fields, each once and in the order in
    which the fields are declared. *)
Theorem coords_are_the_coordinate_fields creator ds dt inst s l s' :
  get_creator creator ds dt = OK (dataarray_creator (inst_class inst)) →
  NoDup (f_name <$> dataclass_fields (inst_class inst)) →
  to_dataarray inst s = (OK l, s') →
  ∃ da,
    s' !! l = Some da ∧
    Dict.keys (coords da) =
      f_name <$> filter coordinate_field (dataclass_fields (inst_class inst)).
Proof.
  intros Hget Hnd Hrun.
  destruct (to_dataarray_OK _ _ _ _ _ _ _ Hget Hrun)
    as (da0 & Hda0 & Hok & _ & Hl).
  eexists. split; [exact Hl|].
  apply created_OK in Hda0 as (_ & _ & Hcoords & _).
  rewrite attach_coords_keys; [by rewrite Hcoords|done| |done].
  intros field _. rewrite Hcoords. apply not_elem_of_nil.
Qed.


(** C5, as the code has it.  Once the creator has made the array, on axes
    of different names, [to_dataarray] raises at the first coordinate
    field that cannot be attached: [KeyError] when the field declares a
    dimension that is not an axis of the array; else [ValueError] when its
    value cannot be broadcast to the extents of its dims; else what xarray
    raises for its name, [MissingDimensionsError] or [ValueError].  It
    raises one of these whenever there is such a field, and returns when
    there is none. *)
Theorem to_dataarray_raises_iff_cannot_attach creator ds dt inst da0 s :
  get_creator creator ds dt = OK (dataarray_creator (inst_class inst)) →
  created creator ds dt inst = OK da0 →
  NoDup ds →
  (∀ before field after,
     dataclass_fields (inst_class inst) = before ++ field :: after →
     Forall (λ f, ¬ cannot_attach inst da0 f) before →
     cannot_attach inst da0 field →
     ∃ e s', to_dataarray inst s = (Err e, s') ∧ raised_for inst da0 field e) ∧
  (Exists (cannot_attach inst da0) (dataclass_fields (inst_class inst)) →
     ∃ e s', to_dataarray inst s = (Err e, s') ∧
             ((∃ key, e = KeyError key) ∨ (∃ msg, e = ValueError msg) ∨
              (∃ msg, e = MissingDimensionsError msg))) ∧
  (¬ Exists (cannot_attach inst da0) (dataclass_fields (inst_class inst)) →
     ∃ l s', to_dataarray inst s = (OK l, s')).
Proof.
  intros Hget Hda0 Hnd. rewrite (to_dataarray_run _ _ _ _ _ Hget), Hda0.
  apply created_OK in Hda0 as (Hdims & _ & Hcoords & Hlen & kwargs & Hkw).
  destruct (attach_coords_result inst (dataclass_fields (inst_class inst)) da0)
    as (Hfirst & Herr & Hok).
  { apply well_formed_no_coords; [done|by rewrite Hdims|done]. }
  { intros field Hf Hc. by eapply asdict_getattr_coordinate. }
  split; [|split].
  - intros before field after Heq Hbefore Hfield.
    destruct (Hfirst before field after Heq Hbefore Hfield) as (e & He & Hkind).
    exists e. eexists. cbn zeta. rewrite He. done.
  - intros Hex. destruct (Herr Hex) as (e & He & Hkind).
    exists e. eexists. cbn zeta. rewrite He. done.
  - intros Hno. eexists _, _. cbn zeta. by rewrite (Hok Hno).
Qed.

(** C8. Two calls of [to_dataarray] on the same instance, one after the
    other, either both raise the same exception or return two different
    objects that hold the same array: same dims, dtype, data and
    coordinate table. *)
Theorem to_dataarray_twice creator ds dt inst s r1 s1 r2 s2 :
  get_creator creator ds dt = OK (dataarray_creator (inst_class inst)) →
  to_dataarray inst s = (r1, s1) →
  to_dataarray inst s1 = (r2, s2) →
  match r1, r2 with
  | OK l1, OK l2 =>
      l1 ≠ l2 ∧ ∃ da, s2 !! l1 = Some da ∧ s2 !! l2 = Some da
  | Err e1, Err e2 => e1 = e2
  | _, _ => False
  end.
Proof.
  intros Hget. rewrite !(to_dataarray_run _ _ _ _ _ Hget).
  destruct (created creator ds dt inst) as [da0|e].
  - destruct (attach_coords inst _ da0) as [[[]|e] da]; simpl.
    + intros [= <- <-] [= <- <-]. rewrite length_app. simpl.
      split; [lia|]. exists da. split.
      * rewrite lookup_app_l by (rewrite length_app; simpl; lia).
        by rewrite lookup_app_r, Nat.sub_diag by lia.
      * rewrite lookup_app_r by (rewrite length_app; simpl; lia).
        rewrite length_app. simpl. by rewrite Nat.sub_diag.
    + by intros [= <- <-] [= <- <-].
  - by intros [= <- <-] [= <- <-].
Qed.
End to_dataarray_facts.

(** ** The decorator: annotations and defaults *)

Section class_facts.
Context `{Backend}.
Implicit Types (cls : PyClass) (par : Param).

Lemma Dict_keys_merge {V} (d1 d2 : dict V) (k : string) :
  k ∈ Dict.keys (Dict.merge d1 d2) ↔ k ∈ Dict.keys d1 ∨ k ∈ Dict.keys d2.
Proof.
  unfold Dict.merge. revert d1.
  induction d2 as [|[k2 v2] d2 IH]; intros d1; simpl.
  - rewrite elem_of_nil. naive_solver.
  - rewrite IH, Dict_elem_of_keys_setitem, elem_of_cons. naive_solver.
Qed.

(** Every parameter is annotated on the class, before or behind the
    annotations the class has of its own. *)
Lemma update_annotations_keys {R} cls (based_on : Callable R) par :
  par ∈ parameters based_on →
  par_name par ∈ Dict.keys (cls_annotations (update_annotations cls based_on)).
Proof.
  unfold update_annotations.
  set (step := λ '(leading, trailing) par,
    if decide (par_kind par = KEYWORD_ONLY) then
      (leading, Dict.setitem (par_name par) (par_annotation par) trailing)
    else
      (Dict.setitem (par_name par) (par_annotation par) leading, trailing)).
  assert (Hgen : ∀ (ps : list Param) (acc : dict Annotation * dict Annotation),
    (∀ k, k ∈ Dict.keys acc.1 ∨ k ∈ Dict.keys acc.2 →
          k ∈ Dict.keys (foldl step acc ps).1 ∨
          k ∈ Dict.keys (foldl step acc ps).2) ∧
    (∀ p, p ∈ ps →
          par_name p ∈ Dict.keys (foldl step acc ps).1 ∨
          par_name p ∈ Dict.keys (foldl step acc ps).2)).
  { induction ps as [|p ps IH]; intros [leading trailing].
    - split; [done|]. by intros p ?%elem_of_nil.
    - cbn [foldl]. destruct (IH (step (leading, trailing) p)) as [IHk IHp].
      assert (par_name p ∈ Dict.keys (step (leading, trailing) p).1 ∨
              par_name p ∈ Dict.keys (step (leading, trailing) p).2) as Hp.
      { simpl. case_decide; simpl; rewrite Dict_elem_of_keys_setitem; auto. }
      split.
      + intros k Hk. apply IHk. simpl in *.
        case_decide; simpl; rewrite Dict_elem_of_keys_setitem; naive_solver.
      + intros p' [->|Hin]%elem_of_cons; [by apply IHk|by apply IHp]. }
  intros Hin. destruct (Hgen (parameters based_on) ([], [])) as [_ Hp].
  specialize (Hp par Hin).
  destruct (foldl step ([], []) (parameters based_on)) as [leading trailing].
  simpl in *. rewrite !Dict_keys_merge. naive_solver.
Qed.

Lemma with_defaults_annotations cls (sig : list Param) :
  cls_annotations (with_defaults cls sig) = cls_annotations cls.
Proof.
  unfold with_defaults. revert cls.
  induction sig as [|p ps IH]; intros cls; [done|].
  cbn [foldl]. rewrite IH. by destruct (par_default p).
Qed.

Lemma with_defaults_get_other cls (sig : list Param) (k : string) :
  (∀ par, par ∈ sig → par_name par = k → par_default par = None) →
  Dict.get k (cls_dict (with_defaults cls sig)) = Dict.get k (cls_dict cls).
Proof.
  unfold with_defaults. revert cls.
  induction sig as [|p ps IH]; intros cls Hk; [done|].
  cbn [foldl]. rewrite IH by (intros par Hpar; apply Hk; by right).
  destruct (par_default p) as [d|] eqn:Hd; [|done]. simpl.
  rewrite Dict_get_setitem. rewrite decide_False; [done|].
  intros Hname. specialize (Hk p (list_elem_of_here _ _) Hname). congruence.
Qed.

(** A default of a parameter is the class attribute of that name. *)
Lemma with_defaults_get cls (sig : list Param) par (d : value) :
  NoDup (par_name <$> sig) →
  par ∈ sig →
  par_default par = Some d →
  Dict.get (par_name par) (cls_dict (with_defaults cls sig)) = Some d.
Proof.
  revert cls. induction sig as [|p ps IH]; intros cls Hnd Hin Hd.
  - by apply elem_of_nil in Hin.
  - rewrite fmap_cons in Hnd. apply NoDup_cons in Hnd as [Hhd Hnd].
    change (with_defaults cls (p :: ps)) with
      (with_defaults (match par_default p with
                      | Some d => setattr cls (par_name p) d
                      | None => cls
                      end) ps).
    apply elem_of_cons in Hin as [->|Hin]; [|by apply IH].
    rewrite with_defaults_get_other.
    + rewrite Hd. simpl. rewrite Dict_get_setitem. by rewrite decide_True.
    + intros par' Hpar' Hname. destruct Hhd. rewrite <-Hname.
      by apply list_elem_of_fmap_2.
Qed.


(** The test of [update_defaults] answers whether the parameter has a
    default, when it answers. *)
Lemma has_default_OK par (given : bool) :
  has_default par = OK given →
  match par_default par with
  | Some _ => given = true
  | None => given = false
  end.
Proof.
  unfold has_default. destruct (par_default par) as [[x|a]|]; [| |congruence].
  - congruence.
  - destruct (size (shape a)) as [|[|n]]; [|congruence|done].
    destruct refuses_empty_truth; [done|congruence].
Qed.

Lemma has_default_Err par e :
  has_default par = Err e → ∃ msg, e = ValueError msg.
Proof.
  unfold has_default. destruct (par_default par) as [[x|a]|]; [done| |done].
  destruct (size (shape a)) as [|[|n]]; [|done|intros [= <-]; eauto].
  destruct refuses_empty_truth; [intros [= <-]; eauto|done].
Qed.

Lemma has_default_plain par :
  plain_default par → is_OK (has_default par).
Proof.
  unfold plain_default, has_default. intros Hplain.
  destruct (par_default par) as [[x|a]|]; [by eexists| |by eexists].
  rewrite (Hplain a eq_refl). by eexists.
Qed.

Lemma has_default_ambiguous par :
  ambiguous_default par → ∃ msg, has_default par = Err (ValueError msg).
Proof.
  unfold has_default. intros (a & -> & Hsize).
  destruct (size (shape a)) as [|[|n]]; [lia..|eauto].
Qed.

(** When [update_defaults] returns, the class has the defaults of the
    parameters as attributes. *)
Lemma update_defaults_from_OK cls (sig : list Param) cls' :
  update_defaults_from cls sig = OK cls' → cls' = with_defaults cls sig.
Proof.
  unfold with_defaults. revert cls.
  induction sig as [|p ps IH]; intros cls; simpl; [congruence|].
  destruct (has_default p) as [given|] eqn:Hgiven; [|done].
  apply has_default_OK in Hgiven. cbn [mbind result_bind].
  destruct (par_default p) as [d|]; subst given; apply IH.
Qed.

Lemma update_defaults_from_Err cls (sig : list Param) e :
  update_defaults_from cls sig = Err e → ∃ msg, e = ValueError msg.
Proof.
  revert cls. induction sig as [|p ps IH]; intros cls; simpl; [done|].
  destruct (has_default p) as [given|e'] eqn:Hgiven.
  - cbn [mbind result_bind]. destruct given, (par_default p); apply IH.
  - cbn [mbind result_bind]. intros [= <-]. by eapply has_default_Err.
Qed.

Lemma update_defaults_from_plain cls (sig : list Param) :
  Forall plain_default sig → is_OK (update_defaults_from cls sig).
Proof.
  intros Hsig. revert cls.
  induction Hsig as [|p ps Hp _ IH]; intros cls; simpl; [by eexists|].
  destruct (has_default_plain p Hp) as [given ->]. cbn [mbind result_bind].
  destruct given, (par_default p); apply IH.
Qed.

Lemma update_defaults_from_ambiguous cls (sig : list Param) :
  Exists ambiguous_default sig →
  ∃ msg, update_defaults_from cls sig = Err (ValueError msg).
Proof.
  intros Hex. destruct (update_defaults_from cls sig) as [cls'|e] eqn:Hrun;
    [|apply update_defaults_from_Err in Hrun as [msg ->]; eauto].
  exfalso. revert cls Hrun.
  induction Hex as [p ps Hp|p ps _ IH]; intros cls; simpl.
  - by destruct (has_default_ambiguous p Hp) as [msg ->].
  - destruct (has_default p) as [given|]; [|done]. cbn [mbind result_bind].
    destruct given, (par_default p); apply IH.
Qed.

Lemma update_defaults_OK {R} cls (based_on : Callable R) cls' :
  update_defaults cls based_on = OK cls' →
  cls' = with_defaults cls (parameters based_on).
Proof. apply update_defaults_from_OK. Qed.

(** The fields of the class [dataclass] returns. *)
Lemma get_fields_OK cls (annotations : dict Annotation) (fs : list Field) :
  comprehension (λ na, get_field cls na.1 na.2) annotations = OK fs →
  fs = field_of cls <$> annotations.
Proof.
  revert fs. induction annotations as [|[name t] anns IH]; intros fs; simpl.
  - congruence.
  - destruct (get_field cls name t) as [f|] eqn:Hf; [|done].
    cbn [mbind result_bind].
    destruct (comprehension _ anns) as [fs'|]; [|done].
    cbn [mbind result_bind]. intros [= <-]. rewrite (IH fs' eq_refl).
    f_equal. unfold get_field in Hf. unfold field_of. simpl.
    destruct (field_type t), (Dict.get name (cls_dict cls)) as [[x|a]|];
      congruence.
Qed.

Lemma dataclass_OK cls (creator : DataArrayCreator) dcls :
  dataclass cls creator = OK dcls →
  dataclass_fields dcls = field_of cls <$> cls_annotations cls ∧
  dataarray_creator dcls = creator ∧
  check_field_order false (dataclass_fields dcls) = OK ().
Proof.
  unfold dataclass.
  destruct (comprehension _ (cls_annotations cls)) as [fs|] eqn:Hfs; [|done].
  apply get_fields_OK in Hfs as ->. cbn [mbind result_bind].
  destruct (check_field_order false _) as [[]|] eqn:Horder; [|done].
  cbn [mbind result_bind]. by intros [= <-].
Qed.

(** What the decorator has done when it returns a class. *)
Lemma dataarrayclass_OK (creator : Callable (result value)) ds dt cls dcls :
  dataarrayclass ds dt creator cls = OK dcls →
  ∃ wrapper,
    get_creator creator ds dt = OK wrapper ∧
    let annotated := update_annotations cls wrapper in
    let cls' := with_defaults annotated (parameters wrapper) in
    dataclass_fields dcls = field_of cls' <$> cls_annotations annotated ∧
    dataarray_creator dcls = wrapper ∧
    check_field_order false (dataclass_fields dcls) = OK ().
Proof.
  unfold dataarrayclass.
  destruct (get_creator creator ds dt) as [wrapper|]; [|done].
  cbn [mbind result_bind].
  destruct (update_defaults _ wrapper) as [cls'|] eqn:Hcls'; [|done].
  apply update_defaults_OK in Hcls' as ->. cbn [mbind result_bind].
  intros (Hfields & Hcreator & Horder)%dataclass_OK.
  exists wrapper. split; [done|]. cbn zeta.
  by rewrite with_defaults_annotations in Hfields.
Qed.

(** C7. The creator made by [get_creator] reports the parameter names and
    defaults of the base callable, and the class the decorator builds
    with it has a field for every parameter, whose default is the default
    of the parameter when the parameter has one. *)
Theorem class_inherits_names_and_defaults
    (creator : Callable (result value)) ds dt wrapper :
  get_creator creator ds dt = OK wrapper →
  NoDup (par_name <$> parameters creator) →
  par_name <$> parameters wrapper = par_name <$> parameters creator ∧
  par_default <$> parameters wrapper = par_default <$> parameters creator ∧
  ∀ cls dcls par,
    dataarrayclass ds dt creator cls = OK dcls →
    par ∈ parameters creator →
    ∃ field,
      field ∈ dataclass_fields dcls ∧
      f_name field = par_name par ∧
      ∀ d, par_default par = Some d → f_default field = Some d.
Proof.
  intros Hget Hnd.
  assert (parameters wrapper = parameters creator) as Hpars.
  { unfold get_creator in Hget.
    destruct (for_ (parameters creator) check_parameter) as [[]|]; [|done].
    simpl in Hget. by injection Hget as <-. }
  rewrite Hpars. split; [done|]. split; [done|].
  intros cls dcls par Hcls Hpar.
  apply dataarrayclass_OK in Hcls as (wrapper' & Hget' & Hfields & _).
  rewrite Hget in Hget'. injection Hget' as <-. rewrite Hfields.
  rewrite <-Hpars in Hpar, Hnd.
  pose proof (update_annotations_keys cls wrapper par Hpar) as Hkey.
  unfold Dict.keys in Hkey.
  apply list_elem_of_fmap in Hkey as ([name ann] & Hname & Hin).
  simpl in Hname. subst name.
  eexists. split; [apply list_elem_of_fmap; eexists; split; [done|exact Hin]|].
  simpl. split; [done|]. intros d Hd.
  by apply with_defaults_get.
Qed.
End class_facts.

(** ** dataarray.py *)

Section asdataarray_facts.
Context `{Backend}.
Variable parse : DataClass + DataObject → result DataModel.
Variable to_dataarray : DataModel → Factory → result AssembledArray.

(** C9. When the class of the instance has the attribute
    [__dataarray_factory__], [asdataarray] converts with that factory
    whatever factory the caller passes; the factory of the caller is used
    when the attribute is missing. *)
Theorem asdataarray_prefers_the_attribute (inst : DataObject)
    (dataarray_factory : Factory) :
  (∀ f, dc_factory (obj_class inst) = Some f →
     asdataarray parse to_dataarray inst dataarray_factory =
       (model ← parse (inr inst); to_dataarray model f) ∧
     ∀ other, asdataarray parse to_dataarray inst other =
              asdataarray parse to_dataarray inst dataarray_factory) ∧
  (dc_factory (obj_class inst) = None →
     asdataarray parse to_dataarray inst dataarray_factory =
       (model ← parse (inr inst); to_dataarray model dataarray_factory)).
Proof.
  unfold asdataarray, getattr_dataarray_factory.
  split; [intros f ->|intros ->]; done.
Qed.
End asdataarray_facts.

Section parser_facts.
Context `{Backend}.
Import Parser.

Lemma classify_coordinate_first (first : Field) (rest : list Field) :
  is_coordinate first →
  classify (first :: rest) =
    Err (ConfigurationError "no primary data field could be determined").
Proof. intros Hfirst. simpl. by rewrite decide_True. Qed.

Lemma classify_plain_first (first : Field) (rest : list Field) :
  ¬ is_coordinate first →
  classify (first :: rest) =
    OK (first, filter is_coordinate rest, filter (λ f, ¬ is_coordinate f) rest).
Proof. intros Hfirst. simpl. by rewrite decide_False. Qed.

Lemma data_name_refused cls (first : Field) (rest : list Field) :
  dc_fields cls = first :: rest → is_coordinate first →
  data_name parse cls =
    Err (ConfigurationError "no primary data field could be determined").
Proof.
  intros Hfields Hfirst. unfold data_name, parse.
  by rewrite Hfields, classify_coordinate_first.
Qed.

Lemma data_name_primary cls (first : Field) (rest : list Field) :
  dc_fields cls = first :: rest → ¬ is_coordinate first →
  data_name parse cls = OK (f_name first).
Proof.
  intros Hfields Hfirst. unfold data_name, parse.
  by rewrite Hfields, classify_plain_first.
Qed.

(** C6. [classify] refuses a field list whose first field is a coordinate,
    and otherwise makes the first field the primary data field, the one
    whose name the shorthand methods read as [parse(cls).data[0].name]. *)
Theorem classify_first_field (first : Field) (rest : list Field) :
  (is_coordinate first →
     classify (first :: rest) =
       Err (ConfigurationError "no primary data field could be determined") ∧
     ∀ cls, dc_fields cls = first :: rest →
       data_name parse cls =
         Err (ConfigurationError "no primary data field could be determined")) ∧
  (¬ is_coordinate first →
     (∃ coordinates passthrough,
        classify (first :: rest) = OK (first, coordinates, passthrough) ∧
        coordinates = filter is_coordinate rest ∧
        passthrough = filter (λ f, ¬ is_coordinate f) rest) ∧
     ∀ cls, dc_fields cls = first :: rest →
       data_name parse cls = OK (f_name first)).
Proof.
  split; intros Hfirst.
  - split; [by apply classify_coordinate_first|].
    intros cls Hfields. by eapply data_name_refused.
  - split.
    + eexists _, _. split; [by apply classify_plain_first|done].
    + intros cls Hfields. by eapply data_name_primary.
Qed.
End parser_facts.

Section shorthand_facts.
Context `{Backend}.
Import Parser.

Lemma comprehension_is_OK {A B} (f : A → result B) (xs : list A) :
  Forall (λ x, is_OK (f x)) xs → is_OK (comprehension f xs).
Proof.
  induction 1 as [|x xs [y Hy] _ [ys Hys]]; [by exists []|].
  exists (y :: ys). simpl. by rewrite Hy, Hys.
Qed.

Lemma attach_data cv (da da' : DataArray) entry :
  attach cv da entry = OK da' →
  data da' = data da ∧ dims da' = dims da ∧ dtype da' = dtype da.
Proof.
  unfold attach. destruct entry as [name cdims].
  destruct (comprehension _ cdims) as [target|]; [|done]. simpl.
  destruct (Dict.getitem name cv) as [[x|a]|]; [| |done]; simpl.
  - by intros [= <-].
  - case_decide; [|done]. by intros [= <-].
Qed.

(** [assemble] returns the primary array, as the typed array class makes
    it of the primary value, with more coordinates. *)
Lemma assemble_data pv cv ds dt cds (da : DataArray) :
  assemble pv cv ds dt cds = OK da →
  ∃ da0, TypedArray ds dt pv = OK da0 ∧
         data da = data da0 ∧ dims da = ds ∧ dtype da = dt.
Proof.
  unfold assemble.
  assert (Hgen : ∀ (cds : dict (list string)) (r0 : result DataArray),
    foldl (λ r entry, da ← r; attach cv da entry) r0 cds = OK da →
    ∃ da0, r0 = OK da0 ∧ data da = data da0 ∧ dims da = dims da0 ∧
           dtype da = dtype da0).
  { clear. induction cds as [|entry cds IH]; intros r0 Hfold.
    - simpl in Hfold. eauto.
    - cbn [foldl] in Hfold. apply IH in Hfold as (da1 & Hstep & -> & -> & ->).
      destruct r0 as [da0|]; [|done]. simpl in Hstep.
      exists da0. split; [done|]. by eapply attach_data. }
  intros (da0 & Hda0 & -> & -> & ->)%Hgen. exists da0. split; [done|].
  apply TypedArray_OK in Hda0 as (? & ? & _). done.
Qed.

(** The typed array class casts the elements of an array and keeps its
    shape, which has one extent per name. *)
Lemma TypedArray_Array ds dt (a : ndarray) da :
  TypedArray ds dt (Array a) = OK da →
  length ds = length (shape a) ∧
  data da = {| shape := shape a; flat := cast dt <$> flat a |}.
Proof.
  unfold TypedArray. cbn [np_asarray]. case_decide; [|done].
  intros [= <-]. split; [done|]. simpl. destruct dt; simpl; [done|].
  destruct a. simpl. f_equal. symmetry. apply list_fmap_id.
Qed.

(** A value the instance holds under a name that was given as a keyword
    is the value given. *)
Lemma init_values cls kw inst (k : string) (v v' : value) :
  init cls kw = OK inst →
  Dict.get k kw = Some v →
  Dict.get k (obj_dict inst) = Some v' →
  obj_class inst = cls ∧ v' = v.
Proof.
  unfold init. intros Hinit Hv.
  destruct (find _ (Dict.keys kw)); [done|].
  set (params := filter _ (dc_fields cls)) in Hinit.
  destruct (comprehension _ params) as [values|] eqn:Hvalues; [|done].
  cbn [mbind result_bind] in Hinit. injection Hinit as <-. simpl.
  intros Hget. split; [done|].
  assert (∀ f w, (f, w) ∈ values → f_name f = k → w = v) as Hall.
  { clear Hget. revert values Hvalues.
    induction params as [|p ps IH]; intros values; simpl.
    - intros [= <-] f w Hin. by apply elem_of_nil in Hin.
    - destruct (Dict.get (f_name p) kw) as [w0|] eqn:Hw0.
      + cbn [mbind result_bind].
        destruct (comprehension _ ps) as [vs|]; [|done].
        cbn [mbind result_bind]. intros [= <-] f w.
        intros [[= -> ->]|Hin]%elem_of_cons Hname; [congruence|].
        by eapply IH.
      + destruct (f_default p) as [d|]; [|done]. cbn [mbind result_bind].
        destruct (comprehension _ ps) as [vs|]; [|done].
        cbn [mbind result_bind]. intros [= <-] f w.
        intros [[= -> ->]|Hin]%elem_of_cons Hname; [congruence|].
        by eapply IH. }
  apply Dict_get_Some_elem in Hget.
  apply list_elem_of_fmap in Hget as ([f w] & [= -> ->] & Hin).
  apply list_elem_of_filter in Hin as [_ Hin]. by eapply Hall.
Qed.

Lemma filter_coordinates_nil (fields : list Field) :
  Forall (λ f, ¬ is_coordinate f) fields → filter is_coordinate fields = [].
Proof.
  induction 1 as [|f fields Hf _ IH]; [done|].
  by rewrite filter_cons, decide_False.
Qed.

(** What [asdataarray] returns holds, as its data, what the typed array
    class makes of the value of the first field. *)
Lemma asdataarray_data cls inst first rest (v : value) f r :
  obj_class inst = cls →
  dc_fields cls = first :: rest →
  (∀ v', Dict.get (f_name first) (obj_dict inst) = Some v' → v' = v) →
  asdataarray parse to_dataarray inst f = OK r →
  ∃ da0, TypedArray (dc_dims cls) (dc_dtype cls) v = OK da0 ∧
         data (array r) = data da0 ∧
         dims (array r) = dc_dims cls ∧ dtype (array r) = dc_dtype cls.
Proof.
  intros Hcls Hfields Hdict. unfold asdataarray.
  destruct (match getattr_dataarray_factory inst with
            | OK f0 => OK f0
            | Err (AttributeError _) => OK f
            | Err e => Err e
            end) as [factory|]; [|done].
  cbn [mbind result_bind]. unfold parse. rewrite Hcls, Hfields.
  destruct (classify (first :: rest)) as [[[p cs] ps]|] eqn:Hclassify; [|done].
  simpl in Hclassify. case_decide; [done|]. injection Hclassify as <- <- <-.
  cbn [mbind result_bind]. unfold to_dataarray.
  cbn [m_data m_values m_coord m_class].
  unfold Dict.getitem at 1.
  destruct (Dict.get (f_name first) (obj_dict inst)) as [v'|] eqn:Hv'; [|done].
  rewrite (Hdict v' eq_refl). cbn [mbind result_bind].
  destruct (comprehension _ (filter is_coordinate rest)); [|done].
  cbn [mbind result_bind].
  destruct (assemble _ _ _ _ _) as [da|] eqn:Hda; [|done].
  simpl. intros [= <-]. simpl. by apply assemble_data in Hda.
Qed.

(** C10, as the model has it.  [full] with a scalar fill value builds the
    instance with, under the name of the first data field, an array of the
    given shape that holds the fill value at every position.  What it
    returns has the dims and the dtype of the class, and its data have the
    given shape and hold, at every position, the fill value cast to the
    dtype of the class; the shape then has one extent per dim of the
    class.  For a class whose first field is a field of the instances and
    whose other fields have defaults and are not coordinates, [full]
    returns when the shape has one extent per dim and raises [ValueError]
    otherwise.  [zeros] and [ones] are [full] with the fill values of
    [np.zeros] and [np.ones]. *)
Theorem full_fills_the_data_field (cls : DataClass) (shp : Shape)
    (x : scalar) (kwargs : dict value) :
  let filled := {| shape := as_shape shp;
                   flat := replicate (size (as_shape shp)) x |} in
  let cast_filled :=
    {| shape := as_shape shp;
       flat := replicate (size (as_shape shp)) (cast (dc_dtype cls) x) |} in
  (∀ first rest, dc_fields cls = first :: rest → ¬ is_coordinate first →
     full parse to_dataarray cls shp (Scalar x) kwargs =
       (inst ← (kw ← keywords [(f_name first, Array filled)] kwargs;
                init cls kw);
        asdataarray parse to_dataarray inst xr_DataArray)) ∧
  (∀ r, full parse to_dataarray cls shp (Scalar x) kwargs = OK r →
     data (array r) = cast_filled ∧
     dims (array r) = dc_dims cls ∧ dtype (array r) = dc_dtype cls ∧
     length (dc_dims cls) = length (as_shape shp)) ∧
  (∀ first rest, dc_fields cls = first :: rest → ¬ is_coordinate first →
     field_type (f_type first) = FIELD →
     Forall (λ f, ¬ is_coordinate f ∧ is_Some (f_default f)) rest →
     if decide (length (dc_dims cls) = length (as_shape shp)) then
       full parse to_dataarray cls shp (Scalar x) [] =
         OK {| built_by := default xr_DataArray (dc_factory cls);
               array := {| dims := dc_dims cls; dtype := dc_dtype cls;
                           data := cast_filled; coords := [] |} |}
     else
       ∃ msg, full parse to_dataarray cls shp (Scalar x) [] =
                Err (ValueError msg)) ∧
  zeros parse to_dataarray cls shp kwargs =
    full parse to_dataarray cls shp (Scalar zero) kwargs ∧
  ones parse to_dataarray cls shp kwargs =
    full parse to_dataarray cls shp (Scalar one) kwargs.
Proof.
  intros filled cast_filled.
  assert (Hname : ∀ first rest, dc_fields cls = first :: rest →
            ¬ is_coordinate first → data_name parse cls = OK (f_name first)).
  { intros first rest Hfields Hfirst. by eapply data_name_primary. }
  assert (Heq : ∀ first rest, dc_fields cls = first :: rest →
     ¬ is_coordinate first →
     full parse to_dataarray cls shp (Scalar x) kwargs =
       (inst ← (kw ← keywords [(f_name first, Array filled)] kwargs;
                init cls kw);
        asdataarray parse to_dataarray inst xr_DataArray)).
  { intros first rest Hfields Hfirst. unfold full.
    rewrite (Hname first rest), np_full_scalar by done. done. }
  assert (Hcast : ∀ da0,
    TypedArray (dc_dims cls) (dc_dtype cls) (Array filled) = OK da0 →
    data da0 = cast_filled ∧ length (dc_dims cls) = length (as_shape shp)).
  { intros da0 [Hlen ->]%TypedArray_Array. split; [|done].
    unfold cast_filled. simpl. by rewrite fmap_replicate. }
  split; [exact Heq|]. split; [|split; [|split]].
  - intros r Hr.
    destruct (dc_fields cls) as [|first rest] eqn:Hfields.
    { unfold full, data_name, parse in Hr. by rewrite Hfields in Hr. }
    destruct (decide (is_coordinate first)) as [Hfirst|Hfirst].
    { unfold full in Hr.
      by rewrite (data_name_refused cls first rest Hfields Hfirst) in Hr. }
    rewrite (Heq first rest) in Hr by done.
    unfold keywords in Hr.
    destruct (find _ (Dict.keys kwargs)); [done|].
    cbn [mbind result_bind] in Hr.
    destruct (init cls _) as [inst|] eqn:Hinit; [|done].
    cbn [mbind result_bind] in Hr.
    destruct (asdataarray_data cls inst first rest (Array filled)
                xr_DataArray r) as (da0 & Hda0 & -> & -> & ->);
      [|done| |done|].
    + destruct (dc_fields cls) eqn:Hnil; [done|].
      assert (Dict.get (f_name first)
                ([(f_name first, Array filled)] ++ kwargs) =
              Some (Array filled)) as Hkw
        by (simpl; by rewrite decide_True).
      unfold init in Hinit. destruct (find _ _); [done|].
      destruct (comprehension _ _); [|done].
      simpl in Hinit. by injection Hinit as <-.
    + intros v' Hv'. eapply init_values; [exact Hinit| |exact Hv'].
      simpl. by rewrite decide_True.
    + destruct (Hcast da0 Hda0) as [-> ->]. done.
  - intros first rest Hfields Hfirst Hreal Hrest. unfold full.
    assert (full parse to_dataarray cls shp (Scalar x) [] =
            (da ← TypedArray (dc_dims cls) (dc_dtype cls) (Array filled);
             OK {| built_by := default xr_DataArray (dc_factory cls);
                   array := da |})) as Hfull.
    { unfold full. rewrite (Hname first rest), np_full_scalar by done.
      cbn [mbind result_bind keywords Dict.keys fmap list_fmap find].
      fold filled. unfold init. rewrite Hfields.
      rewrite filter_cons, decide_True by (rewrite Hreal; done).
      cbn [app Dict.keys fmap list_fmap find fst].
      rewrite bool_decide_true by (by left). cbn [negb].
      match goal with |- context [comprehension ?g _] => set (row := g) end.
      cbn [comprehension].
      assert (row first = OK (first, Array filled)) as ->
        by (unfold row; simpl; by rewrite decide_True).
      cbn [mbind result_bind].
      destruct (comprehension_is_OK row
                  (filter (λ f, field_type (f_type f) ≠ FIELD_CLASSVAR) rest))
        as [vals Hvals].
      { apply Forall_forall. intros f [_ Hf]%list_elem_of_filter.
        rewrite Forall_forall in Hrest. destruct (Hrest f Hf) as [_ [d Hd]].
        unfold row, is_OK. rewrite Hd. destruct (Dict.get _ _); eauto. }
      rewrite Hvals. cbn [mbind result_bind].
      rewrite filter_cons, decide_True by done. rewrite fmap_cons.
      cbn [fst snd].
      unfold asdataarray, getattr_dataarray_factory. cbn [obj_class].
      assert ((match
                 match dc_factory cls with
                 | Some f => OK f
                 | None => Err (AttributeError "__dataarray_factory__")
                 end
               with
               | OK f => OK f
               | Err (AttributeError _) => OK xr_DataArray
               | Err e => Err e
               end) = OK (default xr_DataArray (dc_factory cls))) as ->
        by (by destruct (dc_factory cls)).
      cbn [mbind result_bind]. unfold parse. cbn [obj_class obj_dict].
      rewrite Hfields. cbn [classify]. rewrite decide_False by done.
      cbn [mbind result_bind]. unfold to_dataarray.
      cbn [m_data m_values m_coord m_class].
      unfold Dict.getitem at 1. cbn [Dict.get]. rewrite decide_True by done.
      cbn [mbind result_bind].
      rewrite filter_coordinates_nil
        by (eapply Forall_impl; [exact Hrest|]; by intros f [? _]).
      cbn [comprehension mbind result_bind assemble foldl]. done. }
    fold (full parse to_dataarray cls shp (Scalar x) []). rewrite Hfull.
    unfold TypedArray. cbn [np_asarray shape filled].
    case_decide as Hlen; cbn [mbind result_bind]; [|eauto].
    do 3 f_equal. unfold cast_filled.
    destruct (dc_dtype cls); simpl; [|done]. by rewrite fmap_replicate.
  - unfold zeros, full. rewrite np_full_zero. done.
  - unfold ones, full. rewrite np_full_one. done.
Qed.
End shorthand_facts.

(** * The sample classes, run *)

Section samples.
Import Examples.
#[local] Existing Instance Zbackend.

Lemma new_is_accepted : Forall (λ par, ¬ rejected par) (parameters new).
Proof. repeat constructor; intros [?|[?|?]]; discriminate. Defined.

Lemma Image_is_decorated :
  get_creator new ["x"; "y"] None = OK (dataarray_creator Image).
Proof. reflexivity. Defined.

Lemma Image_fields_NoDup : NoDup (f_name <$> dataclass_fields Image).
Proof. apply (bool_decide_unpack _). vm_compute. exact I. Defined.

(** Called with the unknown key [c1], the creator of [Image] does what it
    does when called with [data] and [fill] only. *)
Lemma creator_drops_unknown_keys_witness :
  ∃ wrapper,
    get_creator new ["x"; "y"] None = OK wrapper ∧
    call wrapper [] image_kwargs =
      call wrapper [] [("data", Array two_by_three); ("fill", Scalar 0%Z)].
Proof.
  destruct (creator_drops_unknown_keys new ["x"; "y"] None [] image_kwargs)
    as (wrapper & Hget & Hcall & _).
  - exact new_is_accepted.
  - intros par Hpar.
    repeat (apply elem_of_cons in Hpar as [->|Hpar]);
      [..|by apply elem_of_nil in Hpar];
      apply (bool_decide_unpack _); vm_compute; exact I.
  - exists wrapper. split; [exact Hget|exact Hcall].
Defined.
(** [loose] has an untyped parameter: [get_creator] raises, and what it
    raises is a [ValueError], not a [ConfigurationError]. *)
Lemma get_creator_raises_no_ConfigurationError :
  Exists rejected (parameters loose) ∧
  get_creator loose ["x"; "y"] None =
    Err (ValueError "Type hint must be specified for all args.") ∧
  ¬ ∃ msg, get_creator loose ["x"; "y"] None = Err (ConfigurationError msg).
Proof.
  split; [apply Exists_cons_hd; by left|]. split; [reflexivity|].
  intros [msg Hmsg]. discriminate Hmsg.
Defined.

(** [loose] has an untyped parameter and collects positional arguments:
    it is refused; [new] is accepted. *)
Lemma get_creator_fails_iff_rejected_witness :
  (∃ msg, get_creator loose ["x"; "y"] None = Err (ValueError msg)) ∧
  (∃ wrapper, get_creator new ["x"; "y"] None = OK wrapper).
Proof.
  destruct (get_creator_fails_iff_rejected loose ["x"; "y"] None) as [Hfail _].
  destruct (get_creator_fails_iff_rejected new ["x"; "y"] None)
    as (_ & Hpass & _).
  split.
  - apply Hfail. apply Exists_cons_hd. by left.
  - apply Hpass. intros Hex. apply Exists_exists in Hex as (par & Hpar & Hrej).
    revert Hrej. apply (proj1 (Forall_forall _ _) new_is_accepted). exact Hpar.
Defined.

(** Scenario A: the coordinate table of the result has the key [c1] only. *)
Lemma coords_are_the_coordinate_fields_witness :
  ∃ da,
    (to_dataarray scenario_A []).2 !! 0 = Some da ∧
    Dict.keys (coords da) = ["c1"].
Proof.
  apply (coords_are_the_coordinate_fields
           new ["x"; "y"] None scenario_A [] 0 (to_dataarray scenario_A []).2).
  - exact Image_is_decorated.
  - exact Image_fields_NoDup.
  - reflexivity.
Defined.

(** The coordinate [c1] of [one_for_two] is an array of shape [(1,)], the
    extent of its axis [x] is 2, and [to_dataarray] returns: the one entry
    is broadcast along the axis. *)
Lemma to_dataarray_broadcasts_a_mismatched_shape :
  created new ["x"; "y"] None one_for_two = OK image_array ∧
  Exists (λ field,
            coordinate_field field ∧
            ∃ v, getattr one_for_two (f_name field) = OK v ∧
                 shape_mismatch image_array field v)
         (dataclass_fields (inst_class one_for_two)) ∧
  to_dataarray one_for_two [] = (OK 0, [assembled_one_for_two]).
Proof.
  split; [reflexivity|]. split; [|reflexivity].
  apply Exists_cons_tl, Exists_cons_hd. split; [exact I|].
  exists (Array one_entry). split; [reflexivity|].
  exists one_entry. split; [reflexivity|]. discriminate.
Defined.

(** Scenario D: a coordinate of shape [(3,)] for an axis of extent 2 cannot
    be broadcast, and [to_dataarray] raises [ValueError]. *)
Lemma to_dataarray_raises_iff_cannot_attach_witness :
  ∃ e s',
    to_dataarray scenario_D [] = (Err e, s') ∧ ∃ msg, e = ValueError msg.
Proof.
  destruct (to_dataarray_raises_iff_cannot_attach
              new ["x"; "y"] None scenario_D image_array [])
    as (Hfirst & _ & _).
  - exact Image_is_decorated.
  - reflexivity.
  - apply (bool_decide_unpack _). vm_compute. exact I.
  - destruct (Hfirst [plain_data] c1_field
                [{| f_name := "fill"; f_type := TClass "int";
                    f_default := Some zero_of_fill |}])
      as (e & s' & Hrun & _ & Hvalue & _).
    + reflexivity.
    + constructor; [|constructor]. intros [Hc _]. exact Hc.
    + split; [exact I|]. right. left. exists (Array three_entries).
      split; reflexivity.
    + exists e, s'. split; [exact Hrun|]. apply Hvalue.
      * intros (dim & Hdim & Hout). apply Hout.
        apply list_elem_of_singleton in Hdim. subst dim. left.
      * exists (Array three_entries). split; reflexivity.
Defined.

(** [Image] has the field [fill] of its creator, with the default 0. *)
Lemma class_inherits_names_and_defaults_witness :
  ∃ field,
    field ∈ dataclass_fields Image ∧
    f_name field = "fill" ∧ f_default field = Some (Scalar 0%Z).
Proof.
  destruct (class_inherits_names_and_defaults
              new ["x"; "y"] None (dataarray_creator Image))
    as (_ & _ & Hfields).
  - exact Image_is_decorated.
  - apply (bool_decide_unpack _). vm_compute. exact I.
  - destruct (Hfields image_body Image fill_param)
      as (field & Hin & Hname & Hdefault).
    + reflexivity.
    + right. left.
    + exists field. split; [exact Hin|]. split; [exact Hname|].
      by apply Hdefault.
Defined.

(** Scenario A twice: the results are the objects 0 and 1, which hold the
    same array. *)
Lemma to_dataarray_twice_witness :
  0 ≠ 1 ∧
  ∃ da,
    [assembled_A; assembled_A] !! 0 = Some da ∧
    [assembled_A; assembled_A] !! 1 = Some da.
Proof.
  apply (to_dataarray_twice new ["x"; "y"] None scenario_A []
           (OK 0) [assembled_A] (OK 1) [assembled_A; assembled_A]).
  - exact Image_is_decorated.
  - reflexivity.
  - reflexivity.
Defined.

(** A field list that begins with a coordinate is refused; one that begins
    with a plain field has that field as primary. *)
Lemma classify_first_field_witness :
  Parser.classify [coordinate_x; plain_data] =
    Err (ConfigurationError "no primary data field could be determined") ∧
  Parser.classify [plain_data; coordinate_x] =
    OK (plain_data, [coordinate_x], []).
Proof.
  destruct (classify_first_field coordinate_x [plain_data]) as [Hrefused _].
  destruct (classify_first_field plain_data [coordinate_x]) as [_ Hprimary].
  split.
  - apply Hrefused. reflexivity.
  - destruct Hprimary as [(cs & ps & Hcls & -> & ->) _]; [discriminate|].
    exact Hcls.
Defined.

(** [custom] is converted by the factory of its class, not by the one that
    is passed. *)
Lemma asdataarray_prefers_the_attribute_witness :
  built_by <$> asdataarray Parser.parse Parser.to_dataarray custom xr_DataArray
    = OK (Subclass "CustomArray").
Proof.
  destruct (asdataarray_prefers_the_attribute
              Parser.parse Parser.to_dataarray custom xr_DataArray)
    as [Hattr _].
  destruct (Hattr (Subclass "CustomArray") eq_refl) as [-> _].
  reflexivity.
Defined.

(** [Pixels.full(2, 300)]: the class declares the dtype [uint8], and the
    data of the result hold 44, not the fill value 300. *)
Lemma full_casts_the_fill_value :
  full Parser.parse Parser.to_dataarray Pixels (ShapeInt 2) (Scalar 300%Z) []
    = OK full_of_pixels ∧
  flat (data (array full_of_pixels)) = [44; 44]%Z ∧
  ¬ Forall (λ y, y = 300%Z) (flat (data (array full_of_pixels))).
Proof.
  split; [reflexivity|]. split; [reflexivity|].
  intros Hall. apply Forall_cons in Hall as [Hhd _]. discriminate Hhd.
Defined.

(** [Custom.full((2, 3), 5)] *)
Lemma full_fills_the_data_field_witness :
  full Parser.parse Parser.to_dataarray Custom (ShapeSeq [2; 3]) (Scalar 5%Z) []
    = OK full_of_fives.
Proof.
  destruct (full_fills_the_data_field Custom (ShapeSeq [2; 3]) 5%Z [])
    as (_ & _ & Hreturns & _).
  apply (Hreturns _ _ eq_refl).
  - discriminate.
  - reflexivity.
  - repeat constructor; [discriminate|]. by eexists.
Defined.
End samples.

(** * More of the code *)

(** ** get_creator and the creator it returns *)

Section more_creator_facts.
Context `{Backend}.
Implicit Types (creator : Callable (result value)) (par : Param).

Lemma check_parameters_app (sig1 sig2 : list Param) :
  for_ sig1 check_parameter = OK () →
  for_ (sig1 ++ sig2) check_parameter = for_ sig2 check_parameter.
Proof.
  induction sig1 as [|par sig1 IH]; [done|]. simpl.
  destruct (check_parameter par) as [[]|]; [|done]. simpl. exact IH.
Qed.

(** The error of [get_creator] is the one of the first parameter it does
    not accept, and a missing type hint is reported before the kind of the
    parameter is looked at. *)
Theorem get_creator_reports_first_rejected creator ds dt
    (accepted rest : list Param) par :
  parameters creator = accepted ++ par :: rest →
  Forall (λ p, ¬ rejected p) accepted →
  rejected par →
  get_creator creator ds dt =
    Err (ValueError
           (if decide (par_annotation par = empty) then
              "Type hint must be specified for all args."
            else if decide (par_kind par = VAR_POSITIONAL) then
              "Variadic positional args cannot be used."
            else "Variadic keyword args cannot be used.")).
Proof.
  intros Hsig Hacc Hrej. unfold get_creator. rewrite Hsig.
  rewrite check_parameters_app by (by apply check_parameters_OK).
  simpl. unfold check_parameter, rejected in *.
  repeat case_decide; naive_solver.
Qed.

(** A call of a creator made by [get_creator] either adds one object to the
    store, with the fixed dims and dtype and no coordinates, and returns its
    location, or raises what the base callable or the typed array class
    raised and leaves the store as it was.  The base callable is called
    with the known keys only. *)
Theorem creator_call_adds_one_object creator ds dt wrapper args
    (kwargs : dict value) (s s' : store) r :
  get_creator creator ds dt = OK wrapper →
  call wrapper args kwargs s = (r, s') →
  let known := Dict.restrict (par_name <$> parameters creator) kwargs in
  return_annotation wrapper = TDataArray ds dt ∧
  match r with
  | OK l =>
      l = length s ∧
      ∃ raw da, call creator args known = OK raw ∧
                TypedArray ds dt raw = OK da ∧
                s' = s ++ [da] ∧
                dims da = ds ∧ dtype da = dt ∧ coords da = []
  | Err e =>
      s' = s ∧
      (call creator args known = Err e ∨
       ∃ raw, call creator args known = OK raw ∧ TypedArray ds dt raw = Err e)
  end.
Proof.
  intros Hget Hcall known. unfold get_creator in Hget.
  destruct (for_ (parameters creator) check_parameter) as [[]|]; [|done].
  simpl in Hget. injection Hget as <-. split; [done|].
  simpl in Hcall. rewrite drop_unknown_restrict in Hcall. fold known in Hcall.
  unfold mbind, M_bind, lift in Hcall.
  destruct (call creator args known) as [raw|e] eqn:Hraw; simpl in Hcall.
  - destruct (TypedArray ds dt raw) as [da|e] eqn:Hda; simpl in Hcall.
    + unfold new_object in Hcall. injection Hcall as <- <-.
      split; [done|]. exists raw, da.
      apply TypedArray_OK in Hda as Hfacts.
      destruct Hfacts as (? & ? & ? & _). done.
    + injection Hcall as <- <-. split; [done|]. right. eauto.
  - injection Hcall as <- <-. split; [done|]. by left.
Qed.
End more_creator_facts.

(** ** update_annotations and update_defaults *)

Section more_dict_facts.
Context {V : Type}.
Implicit Types (d : dict V) (k : string) (v : V).

Lemma Dict_setitem_notin_app d k v :
  k ∉ Dict.keys d → Dict.setitem k v d = d ++ [(k, v)].
Proof.
  induction d as [|[k' v'] d IH]; simpl; [done|].
  rewrite not_elem_of_cons. intros [? ?].
  rewrite decide_False by done. f_equal. auto.
Qed.

Lemma Dict_setitem_idemp d k v :
  Dict.setitem k v (Dict.setitem k v d) = Dict.setitem k v d.
Proof.
  induction d as [|[k' v'] d IH]; simpl.
  - by rewrite decide_True.
  - case_decide; simpl.
    + by rewrite decide_True.
    + rewrite decide_False by done. by rewrite IH.
Qed.

(** Merging in a dictionary whose keys are new appends its items. *)
Lemma Dict_merge_app (d1 d2 : dict V) :
  NoDup (Dict.keys d2) →
  (∀ k, k ∈ Dict.keys d2 → k ∉ Dict.keys d1) →
  Dict.merge d1 d2 = d1 ++ d2.
Proof.
  unfold Dict.merge. revert d1.
  induction d2 as [|[k2 v2] d2 IH]; intros d1 Hnd Hnew; simpl.
  - by rewrite app_nil_r.
  - simpl in Hnd. apply NoDup_cons in Hnd as [Hk2 Hnd].
    rewrite Dict_setitem_notin_app by (apply Hnew; by left).
    rewrite IH; [by rewrite <-app_assoc|done|].
    intros k Hk. unfold Dict.keys. rewrite fmap_app, elem_of_app.
    intros [Hin|Hin].
    + revert Hin. apply Hnew. by right.
    + simpl in Hin. apply list_elem_of_singleton in Hin. by subst.
Qed.

(** A lookup in a merged dictionary finds the item of the right operand
    first. *)
Lemma Dict_get_merge (d1 d2 : dict V) k :
  NoDup (Dict.keys d2) →
  Dict.get k (Dict.merge d1 d2) =
    match Dict.get k d2 with
    | Some v => Some v
    | None => Dict.get k d1
    end.
Proof.
  unfold Dict.merge. revert d1.
  induction d2 as [|[k2 v2] d2 IH]; intros d1 Hnd; simpl; [done|].
  simpl in Hnd. apply NoDup_cons in Hnd as [Hk2 Hnd].
  rewrite IH by done. case_decide as Hk.
  - subst k2. apply Dict_get_None_keys in Hk2. rewrite Hk2.
    rewrite Dict_get_setitem. by rewrite decide_True.
  - destruct (Dict.get k d2); [done|].
    rewrite Dict_get_setitem. by rewrite decide_False.
Qed.
End more_dict_facts.

Section more_class_facts.
Context `{Backend}.
Implicit Types (cls : PyClass) (par : Param).

Lemma annotation_items_keys (sig : list Param) :
  Dict.keys (annotation_item <$> sig) = par_name <$> sig.
Proof. unfold Dict.keys. rewrite <-list_fmap_compose. done. Qed.

Lemma NoDup_filter_names (P : Param → Prop) `{!∀ par, Decision (P par)}
    (sig : list Param) :
  NoDup (par_name <$> sig) → NoDup (par_name <$> filter P sig).
Proof.
  induction sig as [|par sig IH]; [done|]. rewrite fmap_cons.
  intros [Hhd Hnd]%NoDup_cons. rewrite filter_cons.
  case_decide; [|by apply IH]. rewrite fmap_cons. apply NoDup_cons.
  split; [|by apply IH]. intros Hin. apply Hhd.
  apply list_elem_of_fmap in Hin as (p & -> & Hp).
  apply list_elem_of_filter in Hp as [_ Hp]. by apply list_elem_of_fmap_2.
Qed.

(** The two dictionaries the loop of [update_annotations] fills. *)
Lemma update_annotations_loop (sig : list Param)
    (leading trailing : dict Annotation) :
  foldl (λ '(leading, trailing) par,
           if decide (par_kind par = KEYWORD_ONLY) then
             (leading,
              Dict.setitem (par_name par) (par_annotation par) trailing)
           else
             (Dict.setitem (par_name par) (par_annotation par) leading,
              trailing))
        (leading, trailing) sig =
    (Dict.merge leading (positional_items sig),
     Dict.merge trailing (keyword_only_items sig)).
Proof.
  unfold positional_items, keyword_only_items, Dict.merge.
  revert leading trailing.
  induction sig as [|par sig IH]; intros leading trailing; [done|].
  cbn [foldl]. rewrite !filter_cons.
  destruct (decide (par_kind par = KEYWORD_ONLY)) as [Hk|Hk].
  - rewrite IH. rewrite (decide_False (P := par_kind par ≠ KEYWORD_ONLY))
      by (by intros ?). done.
  - rewrite IH. rewrite (decide_True (P := par_kind par ≠ KEYWORD_ONLY))
      by done. done.
Qed.

Lemma update_annotations_merge {R} cls (based_on : Callable R) :
  NoDup (par_name <$> parameters based_on) →
  cls_annotations (update_annotations cls based_on) =
    Dict.merge
      (Dict.merge (positional_items (parameters based_on)) (cls_annotations cls))
      (keyword_only_items (parameters based_on)).
Proof.
  intros Hnd. unfold update_annotations. rewrite update_annotations_loop.
  assert (Hnil : ∀ d : dict Annotation,
            NoDup (Dict.keys d) → Dict.merge [] d = d).
  { intros d Hd. rewrite Dict_merge_app; [done|done|].
    intros k _. apply not_elem_of_nil. }
  rewrite !Hnil; [done|..]; unfold positional_items, keyword_only_items;
    rewrite annotation_items_keys; by apply NoDup_filter_names.
Qed.

(** When no parameter has the name of an annotation of the class, the
    class is annotated with the parameters that are not keyword-only, then
    with what it declares itself, then with the keyword-only parameters. *)
Theorem update_annotations_order {R} cls (based_on : Callable R) :
  NoDup (par_name <$> parameters based_on) →
  NoDup (Dict.keys (cls_annotations cls)) →
  (∀ par, par ∈ parameters based_on →
          par_name par ∉ Dict.keys (cls_annotations cls)) →
  cls_annotations (update_annotations cls based_on) =
    positional_items (parameters based_on) ++ cls_annotations cls ++
    keyword_only_items (parameters based_on).
Proof.
  intros Hnd Hcls Hnew. rewrite update_annotations_merge by done.
  assert (Hitems : ∀ (P : Param → Prop) `{!∀ par, Decision (P par)} k,
    k ∈ Dict.keys (annotation_item <$> filter P (parameters based_on)) →
    ∃ par, par ∈ parameters based_on ∧ P par ∧ par_name par = k).
  { intros P ? k. rewrite annotation_items_keys.
    intros (par & -> & [? ?]%list_elem_of_filter)%list_elem_of_fmap. eauto. }
  rewrite (Dict_merge_app (positional_items _)); [|done|].
  - rewrite Dict_merge_app; [by rewrite <-app_assoc| |].
    + unfold keyword_only_items. rewrite annotation_items_keys.
      by apply NoDup_filter_names.
    + intros k (par & Hpar & Hkind & <-)%Hitems.
      unfold Dict.keys. rewrite fmap_app, elem_of_app. intros [Hin|Hin].
      * apply Hitems in Hin as (par' & Hpar' & Hkind' & Hname).
        assert (par' = par) as ->; [|done].
        apply list_elem_of_lookup in Hpar as [i Hi].
        apply list_elem_of_lookup in Hpar' as [j Hj].
        assert (i = j) as ->; [|congruence].
        eapply NoDup_lookup; [exact Hnd| |];
          rewrite list_lookup_fmap; [by rewrite Hi|rewrite Hj; simpl; by rewrite Hname].
      * by apply (Hnew par).
  - intros k Hk (par & Hpar & _ & <-)%Hitems. by apply (Hnew par).
Qed.

(** When names meet, the annotation of a keyword-only parameter takes the
    place of the one the class declares, and the one the class declares
    takes the place of the annotation of any other parameter. *)
Theorem update_annotations_precedence {R} cls (based_on : Callable R)
    (k : string) :
  NoDup (par_name <$> parameters based_on) →
  NoDup (Dict.keys (cls_annotations cls)) →
  Dict.get k (cls_annotations (update_annotations cls based_on)) =
    match Dict.get k (keyword_only_items (parameters based_on)) with
    | Some t => Some t
    | None =>
        match Dict.get k (cls_annotations cls) with
        | Some t => Some t
        | None => Dict.get k (positional_items (parameters based_on))
        end
    end.
Proof.
  intros Hnd Hcls. rewrite update_annotations_merge by done.
  rewrite Dict_get_merge.
  - by rewrite Dict_get_merge.
  - unfold keyword_only_items. rewrite annotation_items_keys.
    by apply NoDup_filter_names.
Qed.

(** When [update_defaults] returns, it has set the class attribute of every
    parameter that has a default, in place of an attribute the class body
    gave that name, and has left every other attribute of the class and its
    annotations as they were.  It returns when every default that is an
    array has one element, and raises [ValueError] when some default is an
    array with more than one element. *)
Theorem update_defaults_sets_only_defaults {R} cls (based_on : Callable R) :
  NoDup (par_name <$> parameters based_on) →
  (∀ cls', update_defaults cls based_on = OK cls' →
     (∀ par d, par ∈ parameters based_on → par_default par = Some d →
        Dict.get (par_name par) (cls_dict cls') = Some d) ∧
     (∀ k, (∀ par, par ∈ parameters based_on → par_name par = k →
                   par_default par = None) →
        Dict.get k (cls_dict cls') = Dict.get k (cls_dict cls)) ∧
     cls_annotations cls' = cls_annotations cls) ∧
  (Forall plain_default (parameters based_on) →
     ∃ cls', update_defaults cls based_on = OK cls') ∧
  (Exists ambiguous_default (parameters based_on) →
     ∃ msg, update_defaults cls based_on = Err (ValueError msg)).
Proof.
  intros Hnd. split; [|split].
  - intros cls' ->%update_defaults_OK. split; [|split].
    + intros par d Hpar Hd. by apply with_defaults_get.
    + intros k Hk. by apply with_defaults_get_other.
    + apply with_defaults_annotations.
  - apply update_defaults_from_plain.
  - apply update_defaults_from_ambiguous.
Qed.
End more_class_facts.

(** ** The decorator and the order of the fields *)

Section field_order_facts.
Context `{Backend}.
Implicit Types (cls : PyClass) (par : Param).




End field_order_facts.

(** ** to_dataarray and the store *)

Section more_to_dataarray_facts.
Context `{Backend}.
Implicit Types (da : DataArray) (inst : Instance) (field : Field).
Implicit Types (creator : Callable (result value)) (s : store).

(** [to_dataarray] adds at most one object to the store, the one it
    returns, and leaves every object that was there as it was, whether it
    returns or raises. *)
Theorem to_dataarray_leaves_the_store creator ds dt inst s r s' :
  get_creator creator ds dt = OK (dataarray_creator (inst_class inst)) →
  to_dataarray inst s = (r, s') →
  (s' = s ∨ ∃ da, s' = s ++ [da]) ∧
  (∀ l da, s !! l = Some da → s' !! l = Some da) ∧
  (∀ l, r = OK l → l = length s ∧ length s' = S (length s)).
Proof.
  intros Hget. rewrite (to_dataarray_run _ _ _ _ _ Hget).
  destruct (created creator ds dt inst) as [da0|e].
  - cbn zeta. intros [= <- <-]. split; [right; eauto|]. split.
    + intros l da Hl. by apply lookup_app_l_Some.
    + intros l Hr. rewrite length_app. simpl.
      destruct (attach_coords inst _ da0).1 as [[]|]; [|done].
      simpl in Hr. injection Hr as <-. lia.
  - intros [= <- <-]. split; [by left|]. split; [done|]. done.
Qed.

(** An exception of the base callable is raised by [to_dataarray] as it is,
    and the store stays as it was. *)
Theorem to_dataarray_raises_what_the_creator_raises creator ds dt inst s
    (kwargs : dict value) e :
  get_creator creator ds dt = OK (dataarray_creator (inst_class inst)) →
  asdict inst = OK kwargs →
  call creator [] (Dict.restrict (par_name <$> parameters creator) kwargs)
    = Err e →
  to_dataarray inst s = (Err e, s).
Proof.
  intros Hget Hkw Hcall. rewrite (to_dataarray_run _ _ _ _ _ Hget).
  unfold created. by rewrite Hkw; simpl; rewrite Hcall.
Qed.

(** The array [to_dataarray] returns has the dims and the dtype of the
    class, and its data are what the typed array class made of the result
    of the base callable: attaching the coordinates changes none of them. *)
Theorem to_dataarray_keeps_the_created_array creator ds dt inst s l s' :
  get_creator creator ds dt = OK (dataarray_creator (inst_class inst)) →
  to_dataarray inst s = (OK l, s') →
  ∃ kwargs raw da0 da,
    asdict inst = OK kwargs ∧
    call creator [] (Dict.restrict (par_name <$> parameters creator) kwargs)
      = OK raw ∧
    TypedArray ds dt raw = OK da0 ∧
    s' !! l = Some da ∧
    dims da = ds ∧ dtype da = dt ∧ data da = data da0.
Proof.
  intros Hget Hrun.
  destruct (to_dataarray_OK _ _ _ _ _ _ _ Hget Hrun)
    as (da0 & Hda0 & _ & _ & Hl).
  unfold created in Hda0.
  destruct (asdict inst) as [kwargs|]; [|done]. simpl in Hda0.
  destruct (call creator [] _) as [raw|] eqn:Hraw; [|done]. simpl in Hda0.
  exists kwargs, raw, da0. eexists. split; [done|]. split; [done|].
  split; [done|]. split; [exact Hl|].
  destruct (attach_coords_frame inst (dataclass_fields (inst_class inst)) da0)
    as (-> & -> & ->).
  apply TypedArray_OK in Hda0 as (? & ? & _). done.
Qed.
End more_to_dataarray_facts.

(** ** set_coord *)

Section more_set_coord_facts.
Context `{Backend}.
Implicit Types (da : DataArray) (field : Field) (s : store).

Lemma coord_of_OK da field v item :
  coord_of da field v = OK item →
  item.1 = field_dims field ∧ dtype item.2 = field_dtype field.
Proof.
  unfold coord_of, field_dims, field_dtype.
  destruct (f_type field) as [cds cdt| | | |]; [|done..]. simpl.
  destruct (comprehension _ cds) as [shp|]; [|done]. simpl.
  destruct (np_full shp v) as [a|]; [|done]. simpl.
  destruct (TypedArray cds cdt (Array a)) as [typed|] eqn:Htyped; [|done].
  simpl. intros [= <-]. simpl.
  apply TypedArray_OK in Htyped as (_ & ? & _). done.
Qed.

Lemma set_coord_run_on s l da field v :
  s !! l = Some da →
  set_coord l field v s =
    match set_coord_on da field v with
    | OK da' => (OK (), <[l := da']> s)
    | Err e => (Err e, s)
    end.
Proof. intros Hl. by rewrite (set_coord_run _ _ da). Qed.

(** After [set_coord] the coordinate table has the entry of the field, on
    the dims and with the dtype the field declares; the other entries, the
    data of the array and the other objects of the store are as before.
    When [set_coord] raises, the store is as before. *)
Theorem set_coord_then_lookup s l da field v r s' :
  s !! l = Some da →
  set_coord l field v s = (r, s') →
  match r with
  | OK _ =>
      ∃ da' var,
        s' !! l = Some da' ∧
        Dict.get (f_name field) (coords da') = Some var ∧
        v_dims var = field_dims field ∧
        v_dtype var = field_dtype field ∧
        (∀ k, k ≠ f_name field →
              Dict.get k (coords da') = Dict.get k (coords da)) ∧
        dims da' = dims da ∧ dtype da' = dtype da ∧ data da' = data da ∧
        (∀ l', l' ≠ l → s' !! l' = s !! l') ∧
        length s' = length s
  | Err _ => s' = s
  end.
Proof.
  intros Hl. rewrite (set_coord_run_on _ _ da) by done.
  destruct (set_coord_on da field v) as [da'|e] eqn:Hset.
  - apply set_coord_on_OK in Hset as (item & Hitem & ->).
    intros [= <- <-]. apply coord_of_OK in Hitem as [Hdims Hdtype].
    eexists _, _. split.
    { apply list_lookup_insert_eq. by eapply lookup_lt_Some. }
    simpl. rewrite Dict_get_setitem, decide_True by done.
    split; [done|]. split; [done|]. split; [done|]. split.
    { intros k Hk. rewrite Dict_get_setitem. by rewrite decide_False. }
    split; [done|]. split; [done|]. split; [done|]. split.
    + intros l' Hl'. by apply list_lookup_insert_ne.
    + apply length_insert.
  - by intros [= <- <-].
Qed.

(** Setting the same coordinate a second time changes nothing. *)
Theorem set_coord_idempotent s l da field v s' :
  s !! l = Some da →
  set_coord l field v s = (OK (), s') →
  set_coord l field v s' = (OK (), s').
Proof.
  intros Hl. rewrite (set_coord_run_on _ _ da) by done.
  destruct (set_coord_on da field v) as [da'|e] eqn:Hset; [|done].
  intros [= <-].
  rewrite (set_coord_run_on _ _ da')
    by (apply list_lookup_insert_eq; by eapply lookup_lt_Some).
  assert (set_coord_on da' field v = OK da') as ->;
    [|by rewrite list_insert_insert_eq].
  pose proof Hset as Hset'.
  apply set_coord_on_OK in Hset' as (item & Hitem & ->).
  unfold set_coord_on in Hset |- *.
  rewrite (coord_of_ext _ da) by done. rewrite Hitem in Hset |- *.
  cbn [mbind result_bind] in Hset |- *. unfold coords_update in Hset |- *.
  destruct (variable_of (f_name field) item) as [var|] eqn:Hvar; [|done].
  cbn [mbind result_bind] in Hset |- *.
  assert (var = as_variable item.1 item.2) as ->.
  { unfold variable_of in Hvar. repeat case_decide; congruence. }
  rewrite update_coords_same. cbn [coords with_coord].
  rewrite Dict_setitem_idemp, Hset. done.
Qed.

(** A coordinate field without dims takes a scalar as an array of shape
    [()], unless it has the name of an axis of the array: xarray refuses a
    coordinate without axes under such a name. *)
Theorem set_coord_without_dims s l da field (dt : option Dtype) (x : scalar) :
  s !! l = Some da →
  well_formed da →
  f_type field = TDataArray [] dt →
  (f_name field ∉ dims da →
     set_coord l field (Scalar x) s =
       (OK (),
        <[l := with_coord da (f_name field)
                 ([], {| dims := []; dtype := dt;
                         data := {| shape := []; flat := [cast dt x] |};
                         coords := [] |})]> s)) ∧
  (f_name field ∈ dims da →
     ∃ msg, set_coord l field (Scalar x) s = (Err (ValueError msg), s)).
Proof.
  intros Hl Hwf Hty. rewrite (set_coord_run _ _ da) by done.
  unfold coord_of. rewrite Hty.
  cbn [type_dims mbind result_bind comprehension]. rewrite np_full_scalar.
  cbn [mbind result_bind type_call]. unfold TypedArray.
  cbn [np_asarray shape flat length]. rewrite decide_True by done.
  cbn [mbind result_bind size foldr replicate].
  set (typed := {| dims := []; dtype := dt; data := _; coords := [] |}).
  destruct (coords_update_cases da (f_name field) [] typed Hwf)
    as (_ & Hscalar & Hattach).
  { unfold typed. destruct dt; constructor. }
  assert (¬ (f_name field ∈ [] ∧ length ([] : list string) ≠ 1)) as Hname
    by (intros [?%elem_of_nil _]; done).
  split.
  - intros Hout. destruct (Hattach Hname) as [-> _]; [by intros [_ ?]|].
    do 3 f_equal. unfold typed. f_equal. by destruct dt.
  - intros Hin. destruct (Hscalar Hname) as [msg ->]; [done|]. eauto.
Qed.
End more_set_coord_facts.

(** ** An array that already has the target shape *)

Section exact_shape_facts.
Context `{Backend}.

Lemma fmap_ext_elem {A B} (f g : A → B) (l : list A) :
  (∀ x, x ∈ l → f x = g x) → f <$> l = g <$> l.
Proof.
  intros Hfg. apply list_fmap_ext. intros i x Hx. apply Hfg.
  by eapply list_elem_of_lookup_2.
Qed.

Lemma fmap_bind_list {A B C} (g : B → C) (f : A → list B) (l : list A) :
  g <$> (l ≫= f) = l ≫= (λ x, g <$> f x).
Proof.
  induction l as [|x l IH]; [done|].
  by rewrite !bind_cons, fmap_app, IH.
Qed.

Lemma indices_length (shp idx : list nat) :
  idx ∈ indices shp → Forall2 (λ n i, i < n) shp idx.
Proof.
  revert idx. induction shp as [|n shp IH]; intros idx; simpl.
  - intros ->%list_elem_of_singleton. constructor.
  - intros (i & Hidx & Hi)%list_elem_of_bind.
    apply list_elem_of_fmap in Hidx as (idx' & -> & Hidx').
    apply elem_of_seq in Hi. constructor; [lia|by apply IH].
Qed.

Lemma ravel_from (shp idx : list nat) (off : nat) :
  length idx = length shp →
  foldl (λ off ni, off * ni.1 + ni.2) off (zip shp idx) =
    off * size shp + ravel shp idx.
Proof.
  unfold ravel. revert idx off.
  induction shp as [|n shp IH]; intros [|i idx] off Hlen; simpl in *;
    try lia.
  injection Hlen as Hlen. rewrite (IH idx (off * n + i)) by done.
  rewrite (IH idx i) by done. lia.
Qed.

Lemma seq_blocks (n m : nat) :
  (seq 0 n ≫= λ i, seq (i * m) m) = seq 0 (n * m).
Proof.
  induction n as [|n IH]; [done|].
  rewrite seq_S, bind_app, IH. simpl. rewrite app_nil_r.
  replace (m + n * m) with (n * m + m) by lia. by rewrite seq_app.
Qed.

(** The offsets of the indices, in their order, count up from 0. *)
Lemma ravel_indices (shp : list nat) :
  ravel shp <$> indices shp = seq 0 (size shp).
Proof.
  induction shp as [|n shp IH]; [done|]. simpl.
  rewrite <-seq_blocks. rewrite fmap_bind_list. apply list_bind_ext; [|done].
  intros i. rewrite <-list_fmap_compose.
  transitivity ((λ k, i * size shp + k) <$> (ravel shp <$> indices shp)).
  - rewrite <-list_fmap_compose. apply fmap_ext_elem.
    intros idx Hidx. simpl. unfold ravel at 1. simpl.
    rewrite ravel_from; [done|].
    apply indices_length in Hidx. symmetry. by eapply Forall2_length.
  - rewrite IH. rewrite fmap_add_seq. f_equal. lia.
Qed.

Lemma strip_leading_ones_same (ndim : nat) (src : list nat) :
  length src ≤ ndim → strip_leading_ones ndim src = src.
Proof.
  destruct src as [|n src]; [done|]. intros Hlen. simpl.
  rewrite decide_False; [done|]. simpl in Hlen. lia.
Qed.

Lemma source_index_same (shp idx : list nat) :
  idx ∈ indices shp → source_index shp idx = idx.
Proof.
  intros Hidx%indices_length. unfold source_index.
  rewrite strip_leading_ones_same by (by rewrite (Forall2_length _ _ _ Hidx)).
  rewrite (Forall2_length _ _ _ Hidx), Nat.sub_diag, drop_0.
  induction Hidx as [|n i shp idx Hi _ IH]; [done|]. simpl.
  rewrite IH. case_decide; [f_equal; lia|done].
Qed.

Lemma broadcastable_refl (shp : list nat) : broadcastable shp shp = true.
Proof.
  unfold broadcastable. rewrite strip_leading_ones_same by done.
  cbn zeta. rewrite bool_decide_true by done.
  rewrite Nat.sub_diag, drop_0. simpl.
  induction shp as [|n shp IH]; [done|].
  simpl. rewrite IH. by rewrite bool_decide_true by (by right).
Qed.

Lemma lookup_all (l : list scalar) :
  (λ k, default zero (l !! k)) <$> seq 0 (length l) = l.
Proof.
  apply list_eq. intros i. rewrite list_lookup_fmap.
  destruct (decide (i < length l)) as [Hi|Hi].
  - rewrite lookup_seq_lt by done. simpl.
    destruct (lookup_lt_is_Some_2 l i Hi) as [x Hx]. by rewrite Hx.
  - rewrite lookup_seq_ge by lia. simpl. symmetry.
    apply lookup_ge_None. lia.
Qed.

(** [np.full] with an array that has the shape asked for returns the
    array. *)
Lemma np_full_same_shape (a : ndarray) :
  length (flat a) = size (shape a) →
  np_full (shape a) (Array a) = OK a.
Proof.
  intros Hlen. unfold np_full, np_copyto. simpl.
  rewrite broadcastable_refl, strip_leading_ones_same by done.
  destruct a as [shp fl]. simpl in *.
  do 2 f_equal.
  transitivity ((λ k, default zero (fl !! k)) <$> (ravel shp <$> indices shp)).
  - rewrite <-list_fmap_compose. apply fmap_ext_elem.
    intros idx Hidx. simpl. by rewrite source_index_same.
  - rewrite ravel_indices, <-Hlen. apply lookup_all.
Qed.

Lemma comprehension_Forall2 {A B} (f : A → result B) (xs : list A)
    (ys : list B) :
  Forall2 (λ x y, f x = OK y) xs ys → comprehension f xs = OK ys.
Proof.
  induction 1 as [|x y xs ys Hxy _ IH]; [done|]. simpl.
  by rewrite Hxy, IH.
Qed.

(** A coordinate value that is an array with exactly the extents of the
    axes the field names is entered as it is, cast to the dtype of the
    field when the field declares one, unless xarray refuses the name of
    the field: then [set_coord] raises and the store is as it was. *)
Theorem set_coord_keeps_an_array_of_the_target_shape (s : store) l da
    (field : Field) (cds : list string) (cdt : option Dtype) (a : ndarray) :
  s !! l = Some da →
  well_formed da →
  f_type field = TDataArray cds cdt →
  Forall2 (λ dim n, Dict.getitem dim (sizes da) = OK n) cds (shape a) →
  length (flat a) = size (shape a) →
  (¬ refused_name da field →
     set_coord l field (Array a) s =
       (OK (),
        <[l := with_coord da (f_name field)
                 (cds, {| dims := cds; dtype := cdt;
                          data := match cdt with
                                  | Some t => {| shape := shape a;
                                                 flat := astype t <$> flat a |}
                                  | None => a
                                  end;
                          coords := [] |})]> s)) ∧
  (refused_name da field →
     ∃ e, set_coord l field (Array a) s = (Err e, s) ∧
          ((∃ msg, e = ValueError msg) ∨
           (∃ msg, e = MissingDimensionsError msg))).
Proof.
  intros Hl Hwf Hty Hshape Hlen. rewrite (set_coord_run _ _ da) by done.
  unfold coord_of, refused_name, field_dims. rewrite Hty.
  cbn [type_dims mbind result_bind].
  rewrite (comprehension_Forall2 _ _ _ Hshape). cbn [mbind result_bind].
  rewrite np_full_same_shape by done. cbn [mbind result_bind type_call].
  unfold TypedArray. cbn [np_asarray].
  rewrite decide_True by (by eapply Forall2_length). cbn [mbind result_bind].
  set (typed := {| dims := cds; dtype := cdt; data := _; coords := [] |}).
  destruct (coords_update_cases da (f_name field) cds typed Hwf)
    as (Hmissing & Hscalar & Hattach).
  { unfold typed. by destruct cdt. }
  split.
  - intros Hok. destruct Hattach as [-> _]; [tauto..|done].
  - intros [Hm|Hs].
    + destruct (Hmissing Hm) as [msg ->]. eauto.
    + destruct (decide (f_name field ∈ cds ∧ length cds ≠ 1)) as [Hm|Hm].
      * destruct (Hmissing Hm) as [msg ->]. eauto.
      * destruct (Hscalar Hm Hs) as [msg ->]. eauto.
Qed.
End exact_shape_facts.

(** ** A coordinate value with a leading axis of extent 1 *)

Section leading_axes_facts.
Context `{Backend}.

Lemma indices_length_eq (shp idx : list nat) :
  idx ∈ indices shp → length idx = length shp.
Proof. intros Hidx%indices_length. symmetry. by eapply Forall2_length. Qed.

(** [np.full] treats a fill value that has more axes than the shape asked
    for, the first of extent 1, as the value without that axis. *)
Lemma np_full_leading_unit_axis (shp src : list nat) (fl : list scalar) :
  length shp ≤ length src →
  np_full shp (Array {| shape := 1 :: src; flat := fl |}) =
    np_full shp (Array {| shape := src; flat := fl |}).
Proof.
  intros Hlen. unfold np_full, np_copyto, broadcastable.
  cbn [np_asarray shape flat strip_leading_ones].
  rewrite decide_True by (simpl; split; [lia|done]).
  destruct (_ && _); [|done]. do 2 f_equal.
  apply fmap_ext_elem. intros idx Hidx%indices_length_eq.
  unfold source_index. cbn [strip_leading_ones].
  rewrite decide_True by (simpl; split; [lia|done]). done.
Qed.

Lemma comprehension_length {A B} (f : A → result B) (xs : list A)
    (ys : list B) :
  comprehension f xs = OK ys → length ys = length xs.
Proof.
  revert ys. induction xs as [|x xs IH]; intros ys; simpl.
  - by intros [= <-].
  - destruct (f x); [|done]. cbn [mbind result_bind].
    destruct (comprehension f xs) as [ys'|]; [|done].
    cbn [mbind result_bind]. intros [= <-]. simpl. by rewrite (IH ys').
Qed.

(** A coordinate value with more axes than the field declares dims, the
    first of extent 1, is attached as the value without that axis. *)
Theorem set_coord_drops_a_leading_unit_axis (s : store) l da (field : Field)
    (cds : list string) (cdt : option Dtype) (src : list nat)
    (fl : list scalar) :
  s !! l = Some da →
  f_type field = TDataArray cds cdt →
  length cds ≤ length src →
  set_coord l field (Array {| shape := 1 :: src; flat := fl |}) s =
    set_coord l field (Array {| shape := src; flat := fl |}) s.
Proof.
  intros Hl Hty Hlen. rewrite !(set_coord_run _ _ da) by done.
  unfold coord_of. rewrite Hty. cbn [type_dims mbind result_bind].
  destruct (comprehension _ cds) as [shp|] eqn:Hshp; [|done].
  cbn [mbind result_bind]. apply comprehension_length in Hshp.
  rewrite np_full_leading_unit_axis by lia. done.
Qed.
End leading_axes_facts.

(** ** The shorthand methods: what they refuse *)

Section more_shorthand_facts.
Context `{Backend}.
Variable parse : DataClass + DataObject → result DataModel.
Variable to_dataarray : DataModel → Factory → result AssembledArray.

(** When the parsed class has no data field, [zeros], [ones] and [full]
    raise [IndexError] from [data[0]], before any array is made. *)
Theorem shorthands_need_a_data_field (cls : DataClass) (model : DataModel)
    (shp : Shape) (fill_value : value) (kwargs : dict value) :
  parse (inl cls) = OK model →
  m_data model = [] →
  zeros parse to_dataarray cls shp kwargs =
    Err (IndexError "list index out of range") ∧
  ones parse to_dataarray cls shp kwargs =
    Err (IndexError "list index out of range") ∧
  full parse to_dataarray cls shp fill_value kwargs =
    Err (IndexError "list index out of range").
Proof.
  intros Hparse Hdata. unfold zeros, ones, full, data_name.
  by rewrite Hparse; simpl; rewrite Hdata.
Qed.

Lemma keywords_twice (name : string) (v : value) (kwargs : dict value) :
  name ∈ Dict.keys kwargs →
  keywords [(name, v)] kwargs =
    Err (TypeError ("got multiple values for keyword argument " +:+ name)).
Proof.
  unfold keywords. generalize (Dict.keys kwargs). intros ks Hin.
  induction ks as [|k ks IH]; [by apply elem_of_nil in Hin|].
  simpl. unfold Dict.contains at 1. simpl.
  case_bool_decide as Hk.
  - apply list_elem_of_singleton in Hk. by subst.
  - apply IH. apply elem_of_cons in Hin as [->|Hin]; [|done].
    destruct Hk. by apply list_elem_of_singleton.
Qed.

(** A keyword argument with the name of the data field is refused by
    [zeros], [ones] and [full]: the call of the class would bind that name
    twice. *)
Theorem shorthands_refuse_the_data_keyword (cls : DataClass) (name : string)
    (shp : Shape) (kwargs : dict value) :
  data_name parse cls = OK name →
  name ∈ Dict.keys kwargs →
  let refused :=
    Err (TypeError ("got multiple values for keyword argument " +:+ name)) in
  zeros parse to_dataarray cls shp kwargs = refused ∧
  ones parse to_dataarray cls shp kwargs = refused ∧
  ∀ fill_value a,
    np_full (as_shape shp) fill_value = OK a →
    full parse to_dataarray cls shp fill_value kwargs = refused.
Proof.
  intros Hname Hin refused. unfold zeros, ones, full. rewrite Hname.
  cbn [mbind result_bind]. rewrite !keywords_twice by done.
  split; [done|]. split; [done|]. intros fill_value a ->.
  cbn [mbind result_bind]. by rewrite keywords_twice.
Qed.
End more_shorthand_facts.

(** ** lazy_import *)

Lemma Dict_setitem_twice {V} (d : dict V) (k : string) (v v' : V) :
  Dict.setitem k v' (Dict.setitem k v d) = Dict.setitem k v' d.
Proof.
  induction d as [|[k0 v0] d IH]; simpl.
  - by rewrite decide_True.
  - case_decide; simpl.
    + by rewrite decide_True.
    + rewrite decide_False by done. by rewrite IH.
Qed.

Section lazy_import_facts.
Variable find_spec :
  string → dict PyModule → result (option ModuleSpec) * dict PyModule.
Variable create_module :
  Loader → ModuleSpec → dict PyModule →
  result (option PyModule) * dict PyModule.
Implicit Types (sys_modules : dict PyModule) (module : PyModule).

Lemma lazy_loader_OK (found : option Loader) (loader : Loader) :
  lazy_loader found = OK loader →
  found = Some loader ∧ has_exec_module (Some loader) = true.
Proof.
  unfold lazy_loader. destruct found as [l|]; [|done].
  destruct (has_exec_module (Some l)) eqn:Hl; [|done]. by intros [= <-].
Qed.

(** What [lazy_import] does for a name that is not in [sys.modules], when
    it returns a module. *)
Lemma lazy_import_new (module_name : string) sys_modules module sys_modules' :
  Dict.get module_name sys_modules = None →
  lazy_import find_spec create_module module_name sys_modules =
    (Imported module, sys_modules') →
  ∃ spec loader found made created,
    find_spec module_name sys_modules = (OK (Some spec), found) ∧
    spec_loader spec = Some loader ∧
    has_exec_module (Some loader) = true ∧
    create_module loader
      {| spec_name := spec_name spec;
         spec_loader := Some (LazyLoader loader) |} found = (OK made, created) ∧
    sys_modules' = Dict.setitem module_name module created ∧
    module =
      {| mod_spec :=
           Some {| spec_name :=
                     match made ≫= mod_spec with
                     | Some own => spec_name own
                     | None => spec_name spec
                     end;
                   spec_loader := Some loader |};
         mod_lazy := true;
         mod_executed :=
           match made with
           | Some handed => mod_executed handed
           | None => false
           end |}.
Proof.
  intros Hnone. unfold lazy_import, Dict.getitem. rewrite Hnone.
  destruct (find_spec module_name sys_modules) as [[[spec|]|] found] eqn:Hfind;
    [|done..].
  destruct (lazy_loader (spec_loader spec)) as [loader|] eqn:Hloader; [|done].
  apply lazy_loader_OK in Hloader as [Hloader Hexec].
  unfold module_from_spec.
  destruct (create_module loader _ found) as [[made|] created] eqn:Hmade;
    [|done].
  intros Himport. exists spec, loader, found, made, created.
  split; [done|]. split; [done|]. split; [done|]. split; [done|].
  destruct made as [handed|]; injection Himport as <- <-.
  - rewrite Dict_setitem_twice. split; [done|]. unfold exec_module. simpl.
    by destruct (mod_spec handed).
  - rewrite Dict_setitem_twice. done.
Qed.

(** The module [lazy_import] returns is the one under that name in
    [sys.modules] afterwards, and a second call returns it again without
    changing [sys.modules]. *)
Theorem lazy_import_twice (module_name : string) sys_modules module
    sys_modules' :
  lazy_import find_spec create_module module_name sys_modules =
    (Imported module, sys_modules') →
  Dict.get module_name sys_modules' = Some module ∧
  lazy_import find_spec create_module module_name sys_modules' =
    (Imported module, sys_modules').
Proof.
  intros Himport.
  assert (Dict.get module_name sys_modules' = Some module) as Hget.
  { destruct (Dict.get module_name sys_modules) as [cached|] eqn:Hcached.
    - unfold lazy_import, Dict.getitem in Himport. rewrite Hcached in Himport.
      by injection Himport as <- <-.
    - apply lazy_import_new in Himport
        as (spec & loader & found & made & created & _ & _ & _ & _ & -> & _);
        [|done].
      rewrite Dict_get_setitem. by rewrite decide_True. }
  split; [done|]. unfold lazy_import, Dict.getitem. by rewrite Hget.
Qed.

(** A module that is in [sys.modules] is returned as it is, and nothing is
    looked up or changed.  For a name that is not there, [lazy_import]
    raises its [ImportError] exactly when [find_spec] answers [None], and
    then [sys.modules] is as [find_spec] has left it.  A module it makes
    is entered under the given name, in the [sys.modules] that [find_spec]
    and the loader have left; it waits for its first attribute access; the
    loader on its spec is the one that was found, which defines
    [exec_module]; and when the loader has left the making of the module
    object to Python, the module has the name that was found and its code
    has not been run. *)
Theorem lazy_import_enters_one_lazy_module (module_name : string) sys_modules
    r sys_modules' :
  lazy_import find_spec create_module module_name sys_modules =
    (r, sys_modules') →
  (∀ cached, Dict.get module_name sys_modules = Some cached →
     r = Imported cached ∧ sys_modules' = sys_modules) ∧
  (Dict.get module_name sys_modules = None →
     (r = ImportError module_name ↔
        (find_spec module_name sys_modules).1 = OK None) ∧
     (r = ImportError module_name →
        sys_modules' = (find_spec module_name sys_modules).2) ∧
     ∀ module, r = Imported module →
       mod_lazy module = true ∧
       ∃ spec loader found made created,
         find_spec module_name sys_modules = (OK (Some spec), found) ∧
         spec_loader spec = Some loader ∧
         has_exec_module (Some loader) = true ∧
         create_module loader
           {| spec_name := spec_name spec;
              spec_loader := Some (LazyLoader loader) |} found =
           (OK made, created) ∧
         sys_modules' = Dict.setitem module_name module created ∧
         spec_loader <$> mod_spec module = Some (Some loader) ∧
         (made = None →
            mod_spec module = Some spec ∧ mod_executed module = false)).
Proof.
  intros Himport. split.
  - intros cached Hcached. unfold lazy_import, Dict.getitem in Himport.
    rewrite Hcached in Himport. by injection Himport as <- <-.
  - intros Hnone. split; [|split].
    + unfold lazy_import, Dict.getitem in Himport. rewrite Hnone in Himport.
      destruct (find_spec module_name sys_modules)
        as [[[spec|]|] found]; simpl.
      * destruct (lazy_loader _); [|by injection Himport as <- <-].
        destruct (module_from_spec _ _ _ _) as [[]];
          by injection Himport as <- <-.
      * by injection Himport as <- <-.
      * by injection Himport as <- <-.
    + unfold lazy_import, Dict.getitem in Himport. rewrite Hnone in Himport.
      destruct (find_spec module_name sys_modules)
        as [[[spec|]|] found]; simpl.
      * destruct (lazy_loader _); [|by injection Himport as <- <-].
        destruct (module_from_spec _ _ _ _) as [[]];
          by injection Himport as <- <-.
      * by injection Himport as <- <-.
      * by injection Himport as <- <-.
    + intros module ->.
      apply lazy_import_new in Himport
        as (spec & loader & found & made & created &
            Hfind & Hloader & Hexec & Hmade & -> & Hmodule); [|done].
      split; [by rewrite Hmodule|].
      exists spec, loader, found, made, created.
      split; [done|]. split; [done|]. split; [done|]. split; [done|].
      split; [done|]. split; [by rewrite Hmodule|].
      intros ->. rewrite Hmodule. simpl. split; [|done].
      destruct spec as [name found_loader]. simpl in *. by rewrite Hloader.
Qed.
End lazy_import_facts.

(** ** What a decorated class is, and what its creator is given *)

Section decorated_facts.
Context `{Backend}.
Implicit Types (cls : PyClass) (inst : Instance).
Implicit Types (creator : Callable (result value)).




Lemma Dict_get_restrict {V} (ks : list string) (d : dict V) (k : string) :
  Dict.get k (Dict.restrict ks d) =
    if decide (k ∈ ks) then Dict.get k d else None.
Proof.
  unfold Dict.restrict. induction d as [|[k' v'] d IH].
  - by case_decide.
  - rewrite filter_cons. simpl.
    destruct (decide (k' ∈ ks)) as [Hin|Hout]; simpl.
    + rewrite IH. repeat case_decide; subst; done.
    + rewrite IH. repeat case_decide; subst; done.
Qed.

Lemma asdict_get inst (kwargs : dict value) (k : string) :
  asdict inst = OK kwargs →
  Dict.get k kwargs =
    if decide (k ∈ f_name <$> fields (inst_class inst)) then
      Dict.get k (inst_dict inst)
    else None.
Proof.
  unfold asdict. generalize (fields (inst_class inst)).
  intros fields. revert kwargs.
  induction fields as [|f fields IH]; intros kwargs Hkw.
  - simpl in Hkw. injection Hkw as <-.
    destruct (decide _) as [Hin|]; [by apply elem_of_nil in Hin|done].
  - simpl in Hkw.
    destruct (getattr inst (f_name f)) as [v|] eqn:Hv; [|done].
    simpl in Hkw. unfold getattr in Hv.
    destruct (Dict.get (f_name f) (inst_dict inst)) as [v'|] eqn:Hv'; [|done].
    injection Hv as ->.
    destruct (comprehension _ fields) as [kw|] eqn:Hcomp; [|done].
    simpl in Hkw. injection Hkw as <-. simpl.
    specialize (IH kw eq_refl). rewrite IH.
    destruct (decide (f_name f = k)) as [<-|Hne].
    + rewrite decide_True by (by left). done.
    + destruct (decide (k ∈ f_name <$> fields)) as [Hin|Hout].
      * rewrite decide_True by (by right). done.
      * rewrite decide_False; [done|].
        intros [?|?]%elem_of_cons; [by subst|done].
Qed.

(** The keyword arguments the base callable receives from [to_dataarray]
    are the current values of the fields that have the name of one of its
    parameters, and nothing else; the fields are those [dataclasses.fields]
    lists, without class variables and [InitVar] pseudo-fields. *)
Theorem creator_is_given_the_fields_it_names creator inst
    (kwargs : dict value) (k : string) :
  asdict inst = OK kwargs →
  Dict.get k (drop_unknown (parameters creator) kwargs) =
    if decide (k ∈ par_name <$> parameters creator) then
      if decide (k ∈ f_name <$> fields (inst_class inst)) then
        Dict.get k (inst_dict inst)
      else None
    else None.
Proof.
  intros Hkw. rewrite drop_unknown_restrict, Dict_get_restrict.
  by rewrite (asdict_get _ _ _ Hkw).
Qed.
End decorated_facts.

(** * The further sample classes, run *)

Section more_samples.
Import Examples MoreExamples.
#[local] Existing Instance Zbackend.

Lemma new_names_NoDup : NoDup (par_name <$> parameters new).
Proof. apply (bool_decide_unpack _). vm_compute. exact I. Defined.

(** [loose] is refused for the missing type hint of its first parameter. *)
Lemma get_creator_reports_first_rejected_witness :
  get_creator loose ["x"; "y"] None =
    Err (ValueError "Type hint must be specified for all args.").
Proof.
  apply (get_creator_reports_first_rejected
           loose ["x"; "y"] None [] [star_args] untyped_data).
  - reflexivity.
  - constructor.
  - by left.
Defined.

(** The creator of [Image], called in the empty store. *)
Lemma creator_call_adds_one_object_witness :
  return_annotation (dataarray_creator Image) = TDataArray ["x"; "y"] None ∧
  0 = 0 ∧
  ∃ raw da,
    call new [] (Dict.restrict ["data"; "fill"] image_kwargs) = OK raw ∧
    TypedArray ["x"; "y"] None raw = OK da ∧
    [image_array] = [] ++ [da] ∧
    dims da = ["x"; "y"] ∧ dtype da = None ∧ coords da = [].
Proof.
  apply (creator_call_adds_one_object
           new ["x"; "y"] None (dataarray_creator Image) [] image_kwargs
           [] [image_array] (OK 0)).
  - exact Image_is_decorated.
  - reflexivity.
Defined.

(** The annotations of [Image]: [data], then [c1], then [fill]. *)
Lemma update_annotations_order_witness :
  cls_annotations (update_annotations image_body new) =
    [("data", THint "Any"); ("c1", TDataArray ["x"] None);
     ("fill", TClass "int")].
Proof.
  apply (update_annotations_order image_body new).
  - exact new_names_NoDup.
  - apply (bool_decide_unpack _). vm_compute. exact I.
  - intros par Hpar.
    repeat (apply elem_of_cons in Hpar as [->|Hpar]);
      [..|by apply elem_of_nil in Hpar];
      apply (bool_decide_unpack _); vm_compute; exact I.
Defined.

(** [retyped_body] keeps its own annotation of [data] and gets the one of
    the keyword-only parameter [fill]. *)
Lemma update_annotations_precedence_witness :
  Dict.get "data" (cls_annotations (update_annotations retyped_body new)) =
    Some (TClass "ndarray") ∧
  Dict.get "fill" (cls_annotations (update_annotations retyped_body new)) =
    Some (TClass "int").
Proof.
  split.
  - apply (update_annotations_precedence retyped_body new "data").
    + exact new_names_NoDup.
    + apply (bool_decide_unpack _). vm_compute. exact I.
  - apply (update_annotations_precedence retyped_body new "fill").
    + exact new_names_NoDup.
    + apply (bool_decide_unpack _). vm_compute. exact I.
Defined.

(** In [retyped_body] the default of [fill] becomes the one of the
    parameter and the attribute [x] stays; the default of [shifted], an
    array of two elements, is refused. *)
Lemma update_defaults_sets_only_defaults_witness :
  (∃ cls', update_defaults retyped_body new = OK cls' ∧
           Dict.get "fill" (cls_dict cls') = Some (Scalar 0%Z) ∧
           Dict.get "x" (cls_dict cls') = Some (Scalar 3%Z)) ∧
  (∃ msg, update_defaults retyped_body shifted = Err (ValueError msg)).
Proof.
  split.
  - destruct (update_defaults_sets_only_defaults retyped_body new
                new_names_NoDup) as (Hset & Hreturns & _).
    destruct Hreturns as [cls' Hcls'].
    { repeat constructor; intros a Ha; discriminate Ha. }
    destruct (Hset cls' Hcls') as (Hdefault & Hkept & _).
    exists cls'. split; [exact Hcls'|]. split.
    + apply (Hdefault fill_param zero_value); [right; left|reflexivity].
    + rewrite (Hkept "x"); [reflexivity|].
      intros par Hpar.
      repeat (apply elem_of_cons in Hpar as [->|Hpar]);
        [..|by apply elem_of_nil in Hpar]; discriminate.
  - destruct (update_defaults_sets_only_defaults retyped_body shifted)
      as (_ & _ & Hraises).
    + apply (bool_decide_unpack _). vm_compute. exact I.
    + apply Hraises. apply Exists_cons_tl, Exists_cons_hd.
      eexists. split; [reflexivity|]. simpl. lia.
Defined.


(** Scenario A in a store that holds an array already. *)
Lemma to_dataarray_leaves_the_store_witness :
  ([image_array; assembled_A] = [image_array] ∨
   ∃ da, [image_array; assembled_A] = [image_array] ++ [da]) ∧
  (∀ l da, [image_array] !! l = Some da →
           [image_array; assembled_A] !! l = Some da) ∧
  (∀ l, OK 1 = OK l →
        l = length [image_array] ∧
        length [image_array; assembled_A] = S (length [image_array])).
Proof.
  apply (to_dataarray_leaves_the_store
           new ["x"; "y"] None scenario_A [image_array] (OK 1)
           [image_array; assembled_A]).
  - exact Image_is_decorated.
  - reflexivity.
Defined.

(** [bare] has no field [data], [new] raises, and so does [to_dataarray]. *)
Lemma to_dataarray_raises_what_the_creator_raises_witness :
  to_dataarray bare [image_array] =
    (Err (TypeError "new() takes exactly one data argument"), [image_array]).
Proof.
  apply (to_dataarray_raises_what_the_creator_raises
           new ["x"; "y"] None bare [image_array] [("c1", five_value)]).
  - exact Image_is_decorated.
  - reflexivity.
  - reflexivity.
Defined.

(** Scenario A: the data of the result are [two_by_three]. *)
Lemma to_dataarray_keeps_the_created_array_witness :
  ∃ da,
    [assembled_A] !! 0 = Some da ∧
    dims da = ["x"; "y"] ∧ dtype da = None ∧ data da = two_by_three.
Proof.
  destruct (to_dataarray_keeps_the_created_array
              new ["x"; "y"] None scenario_A [] 0 [assembled_A])
    as (kwargs & raw & da0 & da & Hkw & Hraw & Hda0 & Hl & Hdims & Hdt & Hdata).
  - exact Image_is_decorated.
  - reflexivity.
  - exists da. split; [exact Hl|]. split; [exact Hdims|].
    split; [exact Hdt|]. rewrite Hdata.
    injection Hkw as <-. injection Hraw as <-. by injection Hda0 as <-.
Defined.

(** [set_coord] of [c1] with 5 on [image_array]. *)
Lemma set_coord_then_lookup_witness :
  ∃ da' var,
    [assembled_A] !! 0 = Some da' ∧
    Dict.get "c1" (coords da') = Some var ∧
    v_dims var = ["x"] ∧
    v_dtype var = None ∧
    (∀ k, k ≠ "c1" → Dict.get k (coords da') = Dict.get k (coords image_array)) ∧
    dims da' = ["x"; "y"] ∧ dtype da' = None ∧ data da' = two_by_three ∧
    (∀ l', l' ≠ 0 → [assembled_A] !! l' = [image_array] !! l') ∧
    length [assembled_A] = length [image_array].
Proof.
  apply (set_coord_then_lookup
           [image_array] 0 image_array c1_field five_value (OK ())
           [assembled_A]).
  - reflexivity.
  - reflexivity.
Defined.

Lemma set_coord_idempotent_witness :
  set_coord 0 c1_field (Scalar 5%Z) [assembled_A] = (OK (), [assembled_A]).
Proof.
  apply (set_coord_idempotent [image_array] 0 image_array).
  - reflexivity.
  - reflexivity.
Defined.

Lemma image_array_well_formed : well_formed image_array.
Proof. split; [reflexivity|]. eexists. reflexivity. Defined.

(** A coordinate without dims, with dtype [bool_], given 5; and one that
    has the name of the axis [x]. *)
Lemma set_coord_without_dims_witness :
  set_coord 0 c0_field (Scalar 5%Z) [image_array] =
    (OK (),
     [ {| dims := ["x"; "y"]; dtype := None; data := two_by_three;
          coords := [("c0", {| v_dims := []; v_dtype := Some bool_;
                               v_data := {| shape := []; flat := [1%Z] |} |})]
       |} ]) ∧
  ∃ msg, set_coord 0 x_without_dims (Scalar 5%Z) [image_array] =
           (Err (ValueError msg), [image_array]).
Proof.
  split.
  - destruct (set_coord_without_dims [image_array] 0 image_array c0_field
                (Some bool_) five) as [Hattached _].
    + reflexivity.
    + exact image_array_well_formed.
    + reflexivity.
    + apply Hattached. apply (bool_decide_unpack _). vm_compute. exact I.
  - destruct (set_coord_without_dims [image_array] 0 image_array
                x_without_dims None five) as [_ Hrefused].
    + reflexivity.
    + exact image_array_well_formed.
    + reflexivity.
    + apply Hrefused. left.
Defined.

(** Scenario B on one axis: an array of shape [(2,)] for the axis [x];
    and scenario B under the name of the axis [x], which xarray refuses. *)
Lemma set_coord_keeps_an_array_of_the_target_shape_witness :
  set_coord 0 c1_field (Array two_entries) [image_array] =
    (OK (),
     [ {| dims := ["x"; "y"]; dtype := None; data := two_by_three;
          coords := [("c1", {| v_dims := ["x"]; v_dtype := None;
                               v_data := two_entries |})] |} ]) ∧
  ∃ e, set_coord 0 x_on_both_axes (Array two_by_three) [image_array] =
         (Err e, [image_array]) ∧
       ((∃ msg, e = ValueError msg) ∨ (∃ msg, e = MissingDimensionsError msg)).
Proof.
  split.
  - destruct (set_coord_keeps_an_array_of_the_target_shape
                [image_array] 0 image_array c1_field ["x"] None two_entries)
      as [Hattached _].
    + reflexivity.
    + exact image_array_well_formed.
    + reflexivity.
    + repeat constructor.
    + reflexivity.
    + apply Hattached. intros [[Hname _]|[Hdims _]]; [|discriminate Hdims].
      revert Hname. apply (bool_decide_unpack _). vm_compute. exact I.
  - destruct (set_coord_keeps_an_array_of_the_target_shape
                [image_array] 0 image_array x_on_both_axes ["x"; "y"] None
                two_by_three) as [_ Hrefused].
    + reflexivity.
    + exact image_array_well_formed.
    + reflexivity.
    + repeat constructor.
    + reflexivity.
    + apply Hrefused. left. split; [left|]. simpl. lia.
Defined.

(** An array of shape [(1, 2)] for the axis [x] of extent 2 is attached as
    the array of shape [(2,)]. *)
Lemma set_coord_drops_a_leading_unit_axis_witness :
  set_coord 0 c1_field (Array one_by_two) [image_array] =
    (OK (),
     [ {| dims := ["x"; "y"]; dtype := None; data := two_by_three;
          coords := [("c1", {| v_dims := ["x"]; v_dtype := None;
                               v_data := two_entries |})] |} ]).
Proof.
  etrans.
  - apply (set_coord_drops_a_leading_unit_axis
             [image_array] 0 image_array c1_field ["x"] None [2] eight_nine).
    + reflexivity.
    + reflexivity.
    + simpl. lia.
  - reflexivity.
Defined.

Lemma shorthands_need_a_data_field_witness :
  zeros no_data_parse Parser.to_dataarray Custom (ShapeInt 2) [] =
    Err (IndexError "list index out of range").
Proof.
  apply (shorthands_need_a_data_field
           no_data_parse Parser.to_dataarray Custom empty_model
           (ShapeInt 2) zero_value []).
  - reflexivity.
  - reflexivity.
Defined.

(** [Custom.zeros(2, data=1)] *)
Lemma shorthands_refuse_the_data_keyword_witness :
  zeros Parser.parse Parser.to_dataarray Custom (ShapeInt 2) data_twice =
    Err (TypeError "got multiple values for keyword argument data").
Proof.
  apply (shorthands_refuse_the_data_keyword
           Parser.parse Parser.to_dataarray Custom "data" (ShapeInt 2)
           data_twice).
  - reflexivity.
  - left.
Defined.

(** [lazy_import("numpy")] twice, from an empty [sys.modules]. *)
Lemma lazy_import_twice_witness :
  Dict.get "numpy" [("numpy", lazy_numpy)] = Some lazy_numpy ∧
  lazy_import finder default_module "numpy" [("numpy", lazy_numpy)] =
    (Imported lazy_numpy, [("numpy", lazy_numpy)]).
Proof.
  apply (lazy_import_twice finder default_module "numpy" []). reflexivity.
Defined.

(** The module made for [numpy] waits for its first attribute access, has
    the spec that was found, with the found loader, and has not been run. *)
Lemma lazy_import_enters_one_lazy_module_witness :
  mod_lazy lazy_numpy = true ∧
  mod_spec lazy_numpy = Some numpy_spec ∧
  mod_executed lazy_numpy = false.
Proof.
  destruct (lazy_import_enters_one_lazy_module
              finder default_module "numpy" [] (Imported lazy_numpy)
              [("numpy", lazy_numpy)])
    as (_ & Hnew).
  - reflexivity.
  - destruct Hnew as (_ & _ & Hmade); [reflexivity|].
    destruct (Hmade lazy_numpy eq_refl)
      as (Hlazy & spec & loader & found & made & created &
          Hfind & _ & _ & Hcreate & _ & _ & Hdefault).
    split; [exact Hlazy|].
    injection Hfind as <- <-. injection Hcreate as <- <-.
    exact (Hdefault eq_refl).
Defined.


(** In scenario A the base callable is given [data] and not [c1]. *)
Lemma creator_is_given_the_fields_it_names_witness :
  Dict.get "data" (drop_unknown (parameters new) image_kwargs) =
    Some (Array two_by_three) ∧
  Dict.get "c1" (drop_unknown (parameters new) image_kwargs) = None.
Proof.
  split.
  - apply (creator_is_given_the_fields_it_names new scenario_A image_kwargs
             "data"). reflexivity.
  - apply (creator_is_given_the_fields_it_names new scenario_A image_kwargs
             "c1"). reflexivity.
Defined.
End more_samples.
